(** * Hector time series ([headers/data/tseries.hpp])

    A shallow embedding of the [tseries<T_data>] template and of the two
    [interp_helper] specialisations, with the properties of the container
    proved over it.

    Modelling choices.
    - [double] is modelled by the exact rationals [Q].  The container only
      ever compares times ([<], and the equivalence induced by [<] inside
      [std::map]); every finite IEEE double is a rational and the order
      agrees.  NaN and the infinities are outside the model.
    - [std::map<double, T_data>] is a key-ascending association list; the
      key equivalence is [Qeq], as [std::less<double>] induces it.
    - [throw h_exception] is a result in the [except] sum; member functions
      that mutate the object return the new object next to the result. [get]
      is [const] in the source but writes [dirty] (declared [mutable]) and the
      interpolator (through a [const_cast]), so it returns the series too.
    - The header [data/h_interpolator.hpp] is taken as a parameter
      ([Interpolator]); [data/unitval.hpp] is modelled as a record.
    - Of the R binding ([src/rcpp_hector.cpp]) the marshalling of
      [sendmessage] is embedded, over a core taken as a parameter
      ([HectorCore]); the other entry points only forward to the core. *)

From Stdlib Require Import QArith List Bool String Lia Sorted PeanoNat.
From Stdlib Require Import Lqa.
Import ListNotations.

Open Scope Q_scope.

(** ** Numbers *)

Definition double : Set := Q.

(** [a < b] on doubles. *)
Definition ltb (a b : double) : bool :=
  match a ?= b with
  | Lt => true
  | _ => false
  end.

(** [std::numeric_limits<double>::min()]: the smallest positive normalised
    double, 2^-1022. *)
Definition DBL_MIN : double := 1 # (2 ^ 1022).

(** [std::numeric_limits<double>::max()]: (2^53 - 1) * 2^971. *)
Definition DBL_MAX : double := inject_Z ((2 ^ 53 - 1) * 2 ^ 971).

(** ** Exceptions

    Every failure of the container is an [h_exception]; the four throw sites
    of the header are told apart by their message. *)

Inductive h_exception : Set :=
| EmptySeries                 (* H_ASSERT( !mapdata.empty(), ... ) in first/last *)
| InsufficientSamples         (* H_ASSERT( userData.size() > 1, ... ) in interp *)
| InterpolationNotPermitted   (* H_THROW in get *)
| ExtrapolationNotPermitted.  (* H_ASSERT( endinterp_allowed, ... ) in interp *)

Definition what (e : h_exception) : string :=
  match e with
  | EmptySeries => "no mapdata"
  | InsufficientSamples => "time series data must have size>1"
  | InterpolationNotPermitted => "Interpolation requested but not allowed"
  | ExtrapolationNotPermitted => "end interpolation not allowed"
  end.

Inductive except (A : Type) : Type :=
| Ok (a : A)
| Throw (e : h_exception).

Arguments Ok {A} a.
Arguments Throw {A} e.

Definition is_ok {A} (r : except A) : bool :=
  match r with
  | Ok _ => true
  | Throw _ => false
  end.

(** ** [std::map<double, T>] *)

Module StdMap.
Section Map.
Context {T : Type}.

Definition t : Type := list (double * T).

Definition empty : t := [].

  (** [m.find( k )]: the entry whose key is equivalent to [k]. *)
Fixpoint find (k : double) (m : t) : option T :=
    match m with
    | [] => None
    | (k', d) :: m' => if Qeq_bool k k' then Some d else find k m'
    end.

  (** [m[ k ] = d]: overwrite the entry of an equivalent key (the key that is
      already stored stays), or insert at the ordered position. *)
Fixpoint assign (k : double) (d : T) (m : t) : t :=
    match m with
    | [] => [(k, d)]
    | (k', d') :: m' =>
        if ltb k k' then (k, d) :: (k', d') :: m'
        else if ltb k' k then (k', d') :: assign k d m'
        else (k', d) :: m'
    end.

  (** [m.begin()] and [m.rbegin()] dereferenced, when the map is not empty. *)
Definition begin (m : t) : option (double * T) :=
    match m with
    | [] => None
    | p :: _ => Some p
    end.

Fixpoint rbegin (m : t) : option (double * T) :=
    match m with
    | [] => None
    | [p] => Some p
    | _ :: m' => rbegin m'
    end.

Definition size (m : t) : nat := List.length m.

Definition keys (m : t) : list double := map fst m.

  (** The representation invariant: keys strictly ascending. *)
Definition wf (m : t) : Prop := StronglySorted Qlt (keys m).

End Map.
Arguments t : clear implicits.
End StdMap.

(** ** The interpolation engine

    Modelled from the spec: [data/h_interpolator.hpp] is not part of the
    sources at hand.  The container uses three members of [h_interpolator]:
    [newdata( n, x, y )] discards the fitted state and fits the [n] pairs,
    keeping its own copy; [f( x )] evaluates the fitted model and performs no
    range checking; [set_method( m )] selects the strategy.  The numerics are
    a black box, so the engine is a parameter of the whole development. *)

Inductive interpolation_methods : Set := DEFAULT | LINEAR | SPLINE.

Class Interpolator : Type := {
  h_interpolator : Type;
  (* the default-constructed member *)
  h_interpolator_init : h_interpolator;
  newdata : nat -> list double -> list double -> h_interpolator -> h_interpolator;
  f : h_interpolator -> double -> double;
  set_method : interpolation_methods -> h_interpolator -> h_interpolator
}.

(** ** Quantities with a unit

    Modelled from the spec: [data/unitval.hpp] is not part of the sources at
    hand.  A [unitval] is a magnitude tagged with a unit; [value( u )] reads
    the magnitude and asserts that [u] is the quantity's own unit; the
    two-argument constructor pairs a magnitude with a unit. *)

(** The enumeration of units, by the integer value of its enumerators. *)
Definition unit_types : Set := nat.

Definition unit_types_eqb (a b : unit_types) : bool := Nat.eqb a b.

Record unitval : Set := mk_unitval { val : double; units : unit_types }.

(** [u.value( v )]; [None] stands for the failed unit assertion. *)
Definition value (u : unitval) (v : unit_types) : option double :=
  if unit_types_eqb v (units u) then Some (val u) else None.

(** ** [interp_helper]

    The static member [interp] of the helper template; [isDirty] and the
    interpolator are passed by reference, so both come back with the result
    (also when the call throws: they are written before the throw). *)

Definition interp_result (T_data : Type) `{Interpolator} : Type :=
  (except T_data * h_interpolator * bool)%type.

Class interp_helper `{Interpolator} (T_data : Type) : Type := {
  interp : StdMap.t T_data -> h_interpolator -> string -> bool -> bool ->
           double -> interp_result T_data
}.

(** [index < userData.begin()->first || index > userData.rbegin()->first].
    Only evaluated on maps of size > 1. *)
Definition beyond_end {T : Type} (userData : StdMap.t T) (index : double) : bool :=
  match StdMap.begin userData, StdMap.rbegin userData with
  | Some b, Some e => ltb index (fst b) || ltb (fst e) index
  | _, _ => false
  end.

Section Helpers.
Context `{Interpolator}.

(** *** The primary template

  It needs [T_data] to convert implicitly to and from [double]: the two
  conversions are [to_double] (in [y[ i ] = itr->second]) and
  [of_double] (in [return interpolator.f( index )]). *)
Section Primary.
Context {T_data : Type}.
Variable to_double : T_data -> double.
Variable of_double : double -> T_data.

Definition interp_primary
    (userData : StdMap.t T_data) (interpolator : h_interpolator)
    (name : string) (isDirty endinterp_allowed : bool) (index : double)
  : interp_result T_data :=
  if negb (Nat.ltb 1 (StdMap.size userData)) then
    (Throw InsufficientSamples, interpolator, isDirty)
  else
    let '(interpolator, isDirty) :=
      if isDirty then
        let x := map fst userData in
        let y := map (fun p => to_double (snd p)) userData in
        (newdata (StdMap.size userData) x y interpolator, false)
      else (interpolator, isDirty) in
    if beyond_end userData index && negb endinterp_allowed then
      (Throw ExtrapolationNotPermitted, interpolator, isDirty)
    else
      (Ok (of_double (f interpolator index)), interpolator, isDirty).

Definition interp_helper_primary : interp_helper T_data :=
  {| interp := interp_primary |}.
End Primary.

(** *** The specialisation for [unitval] *)

(** The fill loop: [y[ i ] = itr->second.value( itr->second.units() )]. *)
Fixpoint fill_y (userData : StdMap.t unitval) : option (list double) :=
  match userData with
  | [] => Some []
  | (_, u) :: rest =>
    match value u (units u), fill_y rest with
    | Some y, Some ys => Some (y :: ys)
    | _, _ => None
    end
  end.

Definition interp_unitval
    (userData : StdMap.t unitval) (interpolator : h_interpolator)
    (name : string) (isDirty endinterp_allowed : bool) (index : double)
  : interp_result unitval :=
  if negb (Nat.ltb 1 (StdMap.size userData)) then
    (Throw InsufficientSamples, interpolator, isDirty)
  else
    let '(interpolator, isDirty) :=
      if isDirty then
        let x := map fst userData in
        (* [value] is asked for the quantity's own unit and cannot fail:
           see [fill_y_total] *)
        let y := match fill_y userData with Some y => y | None => [] end in
        (newdata (StdMap.size userData) x y interpolator, false)
      else (interpolator, isDirty) in
    if beyond_end userData index && negb endinterp_allowed then
      (Throw ExtrapolationNotPermitted, interpolator, isDirty)
    else
      match StdMap.begin userData with
      | Some b =>
          (Ok (mk_unitval (f interpolator index) (units (snd b))),
           interpolator, isDirty)
      | None =>
          (* not reached: the map has more than one entry *)
          (Throw InsufficientSamples, interpolator, isDirty)
      end.

#[export] Instance interp_helper_unitval : interp_helper unitval :=
  {| interp := interp_unitval |}.
End Helpers.

(** ** [tseries<T_data>] *)

Section TSeries.
Context `{Interpolator}.
Context {T_data : Type} {IH : interp_helper T_data}.

Record tseries : Type := mk_tseries {
  mapdata : StdMap.t T_data;
  lastInterpYear : double;
  endinterp_allowed : bool;
  dirty : bool;                    (* does series need re-interpolating? *)
  interpolator : h_interpolator;
  name : string
}.

(** [set_interp( ia, eia, m )] *)
Definition set_interp (ia : double) (eia : bool) (m : interpolation_methods)
    (s : tseries) : tseries :=
  {| mapdata := mapdata s;
     lastInterpYear := ia;
     endinterp_allowed := eia;
     dirty := true;
     interpolator := set_method m (interpolator s);
     name := name s |}.

(** The constructor: the members are default-constructed, then
    [set_interp( numeric_limits<double>::min(), false, DEFAULT )],
    [dirty = false] and [name = "?"]. *)
Definition tseries_new : tseries :=
  let s := set_interp DBL_MIN false DEFAULT
             {| mapdata := StdMap.empty;
                lastInterpYear := 0;
                endinterp_allowed := false;
                dirty := false;
                interpolator := h_interpolator_init;
                name := EmptyString |} in
  {| mapdata := mapdata s;
     lastInterpYear := lastInterpYear s;
     endinterp_allowed := endinterp_allowed s;
     dirty := false;
     interpolator := interpolator s;
     name := "?" |}.

(** [set( t, d )] *)
Definition set (t : double) (d : T_data) (s : tseries) : tseries :=
  {| mapdata := StdMap.assign t d (mapdata s);
     lastInterpYear := lastInterpYear s;
     endinterp_allowed := endinterp_allowed s;
     dirty := if ltb t (lastInterpYear s) then true else dirty s;
     interpolator := interpolator s;
     name := name s |}.

(** [exists( t )] *)
Definition exists_ (t : double) (s : tseries) : bool :=
  match StdMap.find t (mapdata s) with
  | Some _ => true
  | None => false
  end.

(** [get( t )].  The warning written to the global logger before the throw
    is not part of the state modelled here. *)
Definition get (t : double) (s : tseries) : except T_data * tseries :=
  match StdMap.find t (mapdata s) with
  | Some d => (Ok d, s)
  | None =>
      if ltb t (lastInterpYear s) then
        let '(r, interpolator', dirty') :=
          interp (mapdata s) (interpolator s) (name s) (dirty s)
                 (endinterp_allowed s) t in
        (r, {| mapdata := mapdata s;
               lastInterpYear := lastInterpYear s;
               endinterp_allowed := endinterp_allowed s;
               dirty := dirty';
               interpolator := interpolator';
               name := name s |})
      else (Throw InterpolationNotPermitted, s)
  end.

(** [first()] and [last()] *)
Definition first (s : tseries) : except double :=
  match StdMap.begin (mapdata s) with
  | Some p => Ok (fst p)
  | None => Throw EmptySeries
  end.

Definition last (s : tseries) : except double :=
  match StdMap.rbegin (mapdata s) with
  | Some p => Ok (fst p)
  | None => Throw EmptySeries
  end.

(** [size()] *)
Definition size (s : tseries) : nat := StdMap.size (mapdata s).

(** [allowInterp( eia )] *)
Definition allowInterp (eia : bool) (s : tseries) : tseries :=
  set_interp DBL_MAX eia DEFAULT s.

(** [allowPartialInterp( eia )]: [last()] is evaluated first and may throw,
    in which case the series is untouched. *)
Definition allowPartialInterp (eia : bool) (s : tseries) : except unit * tseries :=
  match last s with
  | Ok l => (Ok tt, set_interp l eia DEFAULT s)
  | Throw e => (Throw e, s)
  end.

(** *** Call sequences

    A client drives a series through its public members; a call that throws
    leaves the series as the throw found it and the client carries on. *)
Inductive call : Type :=
| Set_ (t : double) (d : T_data)
| Get (t : double)
| AllowInterp (eia : bool)
| AllowPartialInterp (eia : bool).

Definition step (s : tseries) (c : call) : tseries :=
  match c with
  | Set_ t d => set t d s
  | Get t => snd (get t s)
  | AllowInterp eia => allowInterp eia s
  | AllowPartialInterp eia => snd (allowPartialInterp eia s)
  end.

Definition run (cs : list call) (s : tseries) : tseries := fold_left step cs s.

(** The value of the latest [set] at a time equivalent to [t] in a call
    sequence, if there is one. *)
Fixpoint last_set (t : double) (cs : list call) : option T_data :=
  match cs with
  | [] => None
  | c :: cs' =>
      match last_set t cs' with
      | Some d => Some d
      | None =>
          match c with
          | Set_ t' d => if Qeq_bool t t' then Some d else None
          | _ => None
          end
      end
  end.

(** The calls that change the policy. *)
Definition policy_call (c : call) : bool :=
  match c with
  | AllowInterp _ | AllowPartialInterp _ => true
  | Set_ _ _ | Get _ => false
  end.

End TSeries.

Arguments tseries {_} T_data.
Arguments call : clear implicits.

(** *** The fit of the primary template

    What [interp] leaves behind once it is past the size assertion: the
    interpolator refitted from all the samples when the series was dirty, and
    the dirty flag down. *)
Section Fit.
Context `{Interpolator} {T_data : Type}.
Variable to_double : T_data -> double.

Definition refit (s : tseries T_data) : h_interpolator :=
  newdata (size s) (map fst (mapdata s))
          (map (fun p => to_double (snd p)) (mapdata s)) (interpolator s).

Definition fitted (s : tseries T_data) : h_interpolator :=
  if dirty s then refit s else interpolator s.

Definition after_fit (s : tseries T_data) : tseries T_data :=
  {| mapdata := mapdata s;
     lastInterpYear := lastInterpYear s;
     endinterp_allowed := endinterp_allowed s;
     dirty := false;
     interpolator := fitted s;
     name := name s |}.

End Fit.

(** ** A linear engine

    A concrete instance of the engine contract (the linear strategy): the
    fitted state is the copied sample list, evaluation is piecewise linear
    and continues the end segments outside the fitted range.  It serves to
    run the container on concrete inputs. *)

Module Linear.

Record state : Set := mk_state {
  method : interpolation_methods;
  knots : list (double * double)
}.

Fixpoint eval (pts : list (double * double)) (x : double) : double :=
  match pts with
  | [] => 0
  | (x0, y0) :: rest =>
      match rest with
      | [] => y0
      | (x1, y1) :: rest' =>
          match rest' with
          | _ :: _ => if ltb x1 x then eval rest x
                      else y0 + (y1 - y0) * (x - x0) / (x1 - x0)
          | [] => y0 + (y1 - y0) * (x - x0) / (x1 - x0)
          end
      end
  end.

#[export] Instance engine : Interpolator := {|
  h_interpolator := state;
  h_interpolator_init := mk_state DEFAULT [];
  newdata := fun n x y st => mk_state (method st) (firstn n (combine x y));
  f := fun st x => Qred (eval (knots st) x);
  set_method := fun m st => mk_state m (knots st)
|}.

End Linear.

(** ** Concrete series *)

(** Plain [double] series: both conversions of the primary template are the
    identity. *)
Definition interp_helper_double `{Interpolator} : interp_helper double :=
  interp_helper_primary (fun d => d) (fun d => d).

Section ScenarioA.
Context `{Interpolator}.

Definition samplesA : StdMap.t double := [(1990, 10); (2000, 20); (2010, 15)].

(** A series holding [samplesA], cutoff 2010, extrapolation disallowed;
    the dirty flag, the engine state and the name are left open. *)
Definition scenarioA (dirty0 : bool) (i : h_interpolator) (n : string)
  : tseries double :=
  {| mapdata := samplesA;
     lastInterpYear := 2010;
     endinterp_allowed := false;
     dirty := dirty0;
     interpolator := i;
     name := n |}.

(** The calls that build it. *)
Definition fillA : list (call double) :=
  [Set_ 1990 10; Set_ 2000 20; Set_ 2010 15].

Definition callsA : list (call double) := fillA ++ [AllowPartialInterp false].

End ScenarioA.

Module Example.

Definition run_double (cs : list (call double)) : tseries (H := Linear.engine) double :=
  run (H := Linear.engine) (IH := interp_helper_double) cs tseries_new.

Definition get_double (t : double) (s : tseries (H := Linear.engine) double) :=
  get (H := Linear.engine) (IH := interp_helper_double) t s.

(** Scenario A, just after [allowPartialInterp( false )]: dirty. *)
Definition seriesA := run_double callsA.

(** Scenario A after one interpolated [get]: fitted, not dirty. *)
Definition seriesA_fitted := run_double (callsA ++ [Get 1995]).


(** A sample overwritten after a policy change. *)
Definition callsC : list (call double) :=
  [Set_ 1990 10; Set_ 2000 20; AllowInterp true; Set_ 2000 25].

(** One sample, interpolation allowed. *)
Definition seriesD := run_double [Set_ 2000 20; AllowInterp true].


(** A series of quantities whose first sample is in another unit than the
    second. *)
Definition seriesU : tseries (H := Linear.engine) unitval :=
  run (H := Linear.engine) (IH := interp_helper_unitval)
      [Set_ 1990 (mk_unitval 10 3%nat); Set_ 2000 (mk_unitval 20 4%nat);
       AllowInterp false] tseries_new.

End Example.

(** ** The cache: the samples an engine was fitted on

    Notions used to state what the dirty flag guarantees. *)

Section Cache.
Context `{Interpolator} {T_data : Type}.
Variable to_double : T_data -> double.

(** The samples stored before a cutoff. *)
Definition before (c : double) (m : StdMap.t T_data) : StdMap.t T_data :=
  filter (fun p => ltb (fst p) c) m.

(** The engine [newdata] leaves when the fill loop of [interp] hands it the
    samples [m]. *)
Definition fit_of (m : StdMap.t T_data) (i0 : h_interpolator) : h_interpolator :=
  newdata (StdMap.size m) (map fst m) (map (fun p => to_double (snd p)) m) i0.

(** What a lowered dirty flag stands for: the engine was fitted on samples
    that agree with the stored ones before the cutoff; or it was never fitted,
    and then nothing is stored before the cutoff and extrapolation is off. *)
Definition coherent (s : tseries T_data) : Prop :=
  dirty s = false ->
  (exists m i0, interpolator s = fit_of m i0 /\
                before (lastInterpYear s) m =
                before (lastInterpYear s) (mapdata s)) \/
  (before (lastInterpYear s) (mapdata s) = [] /\ endinterp_allowed s = false).

End Cache.

(** The calls that only read. *)
Definition is_get {T_data : Type} (c : call T_data) : bool :=
  match c with
  | Get _ => true
  | _ => false
  end.

(** ** The R binding ([src/rcpp_hector.cpp]): [sendmessage]

    [hector.hpp] and [message_data.hpp] are not part of the sources at hand:
    the core, its unit names and its undefined date are parameters.  An
    [h_exception] that reaches a [catch] of the binding is only ever printed
    into the message of [Rcpp::stop], so a failing [sendMessage] is
    represented by that printed text. *)

(** An R numeric vector; [None] is [NA]. *)
Definition NumericVector : Set := list (option double).

(** A call of the binding returns, or ends in [Rcpp::stop( msg )]. *)
Inductive rcpp (A : Type) : Type :=
| Return (a : A)
| Stop (msg : string).

Arguments Return {A} a.
Arguments Stop {A} msg.

(** The handle [newcore] returns to R:
    [List::create( coreidx, strtdate, enddate, inifile, true )]. *)
Record hcore_handle : Set := mk_handle {
  coreidx : Z;
  strtdate : double;
  enddate : double;
  inifile : string;
  active : bool
}.

(** [message_data( date, unitval )] *)
Record message_data : Set := mk_message_data {
  date : double;
  value_unitval : unitval
}.

(** The data frame [sendmessage] assembles: the columns date, var, value and
    units. *)
Record DataFrame : Set := mk_DataFrame {
  df_date : NumericVector;
  df_var : string;
  df_value : list double;
  df_units : list string
}.

Class HectorCore : Type := {
  Core : Type;
  (* [Core::getcore( idx )]: the registered core, or a null pointer *)
  getcore : Z -> option Core;
  (* [hcore->sendMessage( msg, cap, info )]: the reply or the exception it
     throws, and the core as the call leaves it *)
  sendMessage : string -> string -> message_data -> Core ->
                (string + unitval) * Core;
  (* [unitval::parseUnitsName( s )]; [None] when it throws *)
  parseUnitsName : string -> option unit_types;
  (* the unit's name, as [rtn.unitsName()] gives it *)
  unitsName : unit_types -> string;
  U_UNDEFINED : unit_types;
  (* [Core::undefinedIndex()] *)
  undefinedIndex : double
}.

Section SendMessage.
Context `{HectorCore}.

(** [rtn.value( rtn.units() )]: the quantity is asked for its value in its
    own unit, so the unit assertion of [value] cannot fail. *)
Definition reply_value (rtn : unitval) : double :=
  match value rtn (units rtn) with
  | Some v => v
  | None => 0
  end.

(** [gethcore( core )] *)
Definition gethcore (core : hcore_handle) : rcpp Core :=
  match getcore (coreidx core) with
  | Some hcore => Return hcore
  | None => Stop "hector::run:  invalid index"
  end.

(** The body of the loop up to the construction of [info], at index [i]. *)
Definition message_at (date value : NumericVector) (utype : unit_types)
    (i : nat) : message_data :=
  let ival := if Nat.eqb (List.length value) 1 then 0%nat else i in
  let tempval :=
    match nth ival value None with
    | None => 0
    | Some v => v
    end in
  let tempdate :=
    match nth i date None with
    | None => undefinedIndex
    | Some d => d
    end in
  mk_message_data tempdate (mk_unitval tempval utype).

(** The loop [for( i = 0; i < N; ++i )] with [n] iterations to go from index
    [i]: the first exception leaves the loop; otherwise the replies fill
    [valueout] and [unitsout] in order. *)
Fixpoint send_loop (msgstr capstr : string) (date value : NumericVector)
    (utype : unit_types) (n i : nat) (hcore : Core)
  : (string + list double * list string) * Core :=
  match n with
  | O => (inr ([], []), hcore)
  | S n' =>
      let info := message_at date value utype i in
      match sendMessage msgstr capstr info hcore with
      | (inl e, hcore') => (inl e, hcore')
      | (inr rtn, hcore') =>
          match send_loop msgstr capstr date value utype n' (S i) hcore' with
          | (inl e, hcore'') => (inl e, hcore'')
          | (inr (valueout, unitsout), hcore'') =>
              (inr (reply_value rtn :: valueout,
                    unitsName (units rtn) :: unitsout), hcore'')
          end
      end
  end.

(** [sendmessage( core, msgtype, capability, date, value, unit )]; next to
    the result, the core as the call leaves it, when the handle names one. *)
Definition sendmessage (core : hcore_handle) (msgtype capability : string)
    (date value : NumericVector) (unit : string)
  : rcpp DataFrame * option Core :=
  match gethcore core with
  | Stop msg => (Stop msg, None)
  | Return hcore =>
      if negb (Nat.eqb (List.length value) (List.length date)) &&
         negb (Nat.eqb (List.length value) 1)
      then (Stop "Value must have length 1 or same length as date.",
            Some hcore)
      else
        let N := List.length date in
        let utype :=
          match parseUnitsName unit with
          | Some u => u
          | None => U_UNDEFINED
          end in
        match send_loop msgtype capability date value utype N 0 hcore with
        | (inl e, hcore') => (Stop ("sendmessage: " ++ e), Some hcore')
        | (inr (valueout, unitsout), hcore') =>
            (Return (mk_DataFrame date capability valueout unitsout),
             Some hcore')
        end
  end.

(** The value vector written out in full: a single value repeated for
    every date, and 0 in the place of [NA]. *)
Definition expand_value (N : nat) (value : NumericVector) : NumericVector :=
  map (fun v => Some (match v with Some x => x | None => 0 end))
      (if Nat.eqb (List.length value) 1 then repeat (nth 0 value None) N
       else value).

End SendMessage.

(** A core that records the messages it is sent and echoes the quantity
    back, refusing dates before 1750; the unit names are "ppmv" for unit 1
    and "(undefined)" otherwise. *)
Module EchoCore.

Definition send (msg cap : string) (info : message_data)
    (log : list message_data) : (string + unitval) * list message_data :=
  if ltb (date info) 1750 then (inl "date out of range"%string, log)
  else (inr (value_unitval info), log ++ [info]).

#[export] Instance core : HectorCore := {|
  Core := list message_data;
  getcore := fun idx => if Z.eqb idx 0 then Some [] else None;
  sendMessage := send;
  parseUnitsName := fun s => if String.eqb s "ppmv" then Some 1%nat else None;
  unitsName := fun u => if Nat.eqb u 1 then "ppmv"%string else "(undefined)"%string;
  U_UNDEFINED := 0%nat;
  undefinedIndex := -1
|}.

Definition handle0 : hcore_handle := mk_handle 0 1750 2300 "hector.ini" true.

End EchoCore.

(** * Facts about the map *)

Lemma ltb_lt (a b : double) : ltb a b = true <-> a < b.
Proof.
  unfold ltb. rewrite Qlt_alt.
  destruct (a ?= b); split; intro E; congruence.
Qed.

Lemma ltb_ge (a b : double) : ltb a b = false <-> b <= a.
Proof.
  split; intro E.
  - apply Qnot_lt_le. intro L. apply ltb_lt in L. congruence.
  - destruct (ltb a b) eqn:L; trivial.
    apply ltb_lt in L. apply Qlt_not_le in L. contradiction.
Qed.

Lemma Qeq_bool_false (a b : double) : Qeq_bool a b = false <-> ~ a == b.
Proof.
  rewrite <- Qeq_bool_iff. destruct (Qeq_bool a b); split; intro E;
    congruence.
Qed.

Section MapFacts.
Context {T : Type}.
Implicit Types (m : StdMap.t T) (k : double) (d : T).

Lemma find_assign_same k d m : StdMap.find k (StdMap.assign k d m) = Some d.
Proof.
  induction m as [|[k' d'] m IHm]; simpl.
  - now rewrite Qeq_bool_refl.
  - destruct (ltb k k') eqn:L1; simpl.
    + now rewrite Qeq_bool_refl.
    + destruct (ltb k' k) eqn:L2; simpl.
      * apply ltb_lt in L2.
        assert (E : Qeq_bool k k' = false)
          by (apply Qeq_bool_false; intro E; rewrite E in L2;
              exact (Qlt_irrefl _ L2)).
        now rewrite E.
      * apply ltb_ge in L1, L2.
        assert (E : Qeq_bool k k' = true)
          by (apply Qeq_bool_iff, Qle_antisym; assumption).
        now rewrite E.
Qed.

Lemma find_assign_other k k2 d m :
  ~ k2 == k -> StdMap.find k2 (StdMap.assign k d m) = StdMap.find k2 m.
Proof.
  intro N. apply Qeq_bool_false in N.
  induction m as [|[k' d'] m IHm]; simpl.
  - now rewrite N.
  - destruct (ltb k k') eqn:L1; simpl.
    + now rewrite N.
    + destruct (ltb k' k) eqn:L2; simpl.
      * now rewrite IHm.
      * apply ltb_ge in L1, L2.
        assert (E : k == k') by (apply Qle_antisym; assumption).
        assert (N' : Qeq_bool k2 k' = false)
          by (apply Qeq_bool_false; intro E'; apply Qeq_bool_false in N;
              apply N; rewrite E; exact E').
        now rewrite N'.
Qed.

Lemma find_assign k k2 d m :
  StdMap.find k2 (StdMap.assign k d m) =
  if Qeq_bool k2 k then Some d else StdMap.find k2 m.
Proof.
  destruct (Qeq_bool k2 k) eqn:E.
  - apply Qeq_bool_iff in E.
    rewrite <- (find_assign_same k d m).
    generalize (StdMap.assign k d m). intro m'.
    induction m' as [|[k' d'] m' IHm']; simpl; trivial.
    now rewrite E, IHm'.
  - apply find_assign_other. now apply Qeq_bool_false.
Qed.

Lemma size_assign_le k d m :
  (StdMap.size m <= StdMap.size (StdMap.assign k d m))%nat.
Proof.
  unfold StdMap.size.
  induction m as [|[k' d'] m IHm]; simpl; [lia|].
  destruct (ltb k k'); simpl; [lia|].
  destruct (ltb k' k); simpl; lia.
Qed.

(** The first key after an assignment: the new key when it is smaller than
    every key, the old first key otherwise. *)
Lemma begin_assign k d k0 d0 m :
  exists p, StdMap.begin (StdMap.assign k d ((k0, d0) :: m)) = Some p /\
            fst p = if ltb k k0 then k else k0.
Proof.
  simpl. destruct (ltb k k0); [eexists; split; reflexivity|].
  destruct (ltb k0 k); eexists; split; reflexivity.
Qed.

Lemma rbegin_cons (p : double * T) m :
  exists q, StdMap.rbegin (p :: m) = Some q.
Proof.
  revert p. induction m as [|q m IHm]; intro p.
  - now exists p.
  - destruct (IHm q) as (r & Hr). exists r. exact Hr.
Qed.

Lemma rbegin_cons2 (p q : double * T) m :
  StdMap.rbegin (p :: q :: m) = StdMap.rbegin (q :: m).
Proof. reflexivity. Qed.


End MapFacts.

Section MapOrder.
Context {T : Type}.
Implicit Types (m : StdMap.t T) (k : double) (d : T).

Lemma keys_assign_Forall (P : double -> Prop) k d m :
  P k -> Forall P (StdMap.keys m) -> Forall P (StdMap.keys (StdMap.assign k d m)).
Proof.
  intros Pk. induction m as [|[k' d'] m IHm]; simpl; intro F.
  - constructor; trivial.
  - inversion F as [|? ? Pk' F']; subst.
    destruct (ltb k k'); simpl; [now repeat constructor|].
    destruct (ltb k' k); simpl; constructor; auto.
Qed.

(** Assignment keeps the keys strictly ascending. *)
Lemma assign_wf k d m : StdMap.wf m -> StdMap.wf (StdMap.assign k d m).
Proof.
  unfold StdMap.wf.
  induction m as [|[k' d'] m IHm]; simpl; intro W.
  - repeat constructor.
  - inversion W as [|? ? W' F]; subst.
    destruct (ltb k k') eqn:L1; simpl.
    + apply ltb_lt in L1. constructor; [exact W|].
      constructor; trivial.
      eapply Forall_impl; [|exact F]. intros x Hx. simpl in Hx.
      now apply Qlt_trans with k'.
    + destruct (ltb k' k) eqn:L2; simpl.
      * apply ltb_lt in L2. constructor; [now apply IHm|].
        now apply keys_assign_Forall.
      * now constructor.
Qed.

(** In a well-formed map [begin] holds the earliest key. *)
Lemma begin_least m p k :
  StdMap.wf m -> StdMap.begin m = Some p -> In k (StdMap.keys m) -> fst p <= k.
Proof.
  unfold StdMap.wf. destruct m as [|q m]; simpl; [discriminate|].
  intros W E [I | I]; inversion E; subst.
  - apply Qle_refl.
  - inversion W as [|? ? W' F]; subst.
    rewrite Forall_forall in F. apply Qlt_le_weak. now apply F.
Qed.

End MapOrder.

(** * Facts about the series that hold for every helper *)

Section SeriesFacts.
Context `{Interpolator}.
Context {T_data : Type} {IH : interp_helper T_data}.
Implicit Types (s : tseries T_data) (t : double) (d : T_data).

Lemma tseries_eta s :
  {| mapdata := mapdata s; lastInterpYear := lastInterpYear s;
     endinterp_allowed := endinterp_allowed s; dirty := dirty s;
     interpolator := interpolator s; name := name s |} = s.
Proof. now destruct s. Qed.

(** [get] writes nothing but [dirty] and the interpolator. *)
Lemma get_frame t s :
  mapdata (snd (get t s)) = mapdata s /\
  lastInterpYear (snd (get t s)) = lastInterpYear s /\
  endinterp_allowed (snd (get t s)) = endinterp_allowed s /\
  name (snd (get t s)) = name s.
Proof.
  unfold get.
  destruct (StdMap.find t (mapdata s)); [now repeat split|].
  destruct (ltb t (lastInterpYear s)); [|now repeat split].
  destruct (interp _ _ _ _ _ _) as [[r i] b]. now repeat split.
Qed.

Lemma allowPartialInterp_mapdata eia s :
  mapdata (snd (allowPartialInterp eia s)) = mapdata s.
Proof. unfold allowPartialInterp. now destruct (last s). Qed.

Lemma step_find t s (c : call T_data) :
  StdMap.find t (mapdata (step s c)) =
  match c with
  | Set_ t' d => if Qeq_bool t t' then Some d else StdMap.find t (mapdata s)
  | _ => StdMap.find t (mapdata s)
  end.
Proof.
  destruct c as [t' d|t'|eia|eia]; simpl.
  - apply find_assign.
  - now rewrite (proj1 (get_frame t' s)).
  - reflexivity.
  - now rewrite allowPartialInterp_mapdata.
Qed.

(** What a series holds at [t] after a call sequence: the value of the
    latest [set] at [t], or what it held before. *)
Lemma run_find t (cs : list (call T_data)) s :
  StdMap.find t (mapdata (run cs s)) =
  match last_set t cs with
  | Some d => Some d
  | None => StdMap.find t (mapdata s)
  end.
Proof.
  revert s. induction cs as [|c cs IHcs]; intro s; [reflexivity|].
  change (run (c :: cs) s) with (run cs (step s c)).
  rewrite IHcs. simpl.
  destruct (last_set t cs); [reflexivity|].
  rewrite step_find.
  destruct c as [t' d| | |]; trivial.
  now destruct (Qeq_bool t t').
Qed.

(** Every series a client can build is a well-formed map. *)
Lemma run_wf (cs : list (call T_data)) s :
  StdMap.wf (mapdata s) -> StdMap.wf (mapdata (run cs s)).
Proof.
  revert s. induction cs as [|c cs IHcs]; intros s W; [exact W|].
  change (run (c :: cs) s) with (run cs (step s c)).
  apply IHcs. destruct c as [t d|t|eia|eia]; simpl.
  - now apply assign_wf.
  - now rewrite (proj1 (get_frame t s)).
  - exact W.
  - now rewrite allowPartialInterp_mapdata.
Qed.

(** C1. For every series built by any sequence of calls, under every
    interpolation policy, dirty flag and engine state: when [exists( t )]
    holds, [get( t )] returns exactly the value of the latest [set] at [t],
    and leaves the whole series, dirty flag and engine included, as it was
    (the exact-match path neither asks the engine nor writes the flag). *)
Theorem get_exact_match (cs : list (call T_data)) t s :
  mapdata s = mapdata (run cs tseries_new) ->
  exists_ t s = true ->
  exists d, last_set t cs = Some d /\ get t s = (Ok d, s).
Proof.
  intros E X. unfold exists_, get in *.
  rewrite E, run_find in *. simpl in *.
  destruct (last_set t cs) as [d|]; [|discriminate].
  now exists d.
Qed.

End SeriesFacts.

(** * The interpolation policy *)

Section Policy.
Context `{Interpolator}.
Context {T_data : Type} {IH : interp_helper T_data}.
Implicit Types (s : tseries T_data) (t : double) (d : T_data).

(** [set] and [get] never write the cutoff or the extrapolation flag. *)
Lemma run_policy (cs : list (call T_data)) s :
  forallb (fun c => negb (policy_call c)) cs = true ->
  lastInterpYear (run cs s) = lastInterpYear s /\
  endinterp_allowed (run cs s) = endinterp_allowed s.
Proof.
  revert s. induction cs as [|c cs IHcs]; intros s F; [now split|].
  change (run (c :: cs) s) with (run cs (step s c)).
  simpl in F. apply andb_true_iff in F. destruct F as [Fc F].
  destruct (IHcs (step s c) F) as [E1 E2]. rewrite E1, E2.
  destruct c as [t d|t|eia|eia]; try discriminate; simpl.
  - now split.
  - destruct (get_frame t s) as (_ & E3 & E4 & _). now split.
Qed.

(** On a miss, [get] asks the helper exactly when the time is before the
    cutoff. *)
Lemma get_miss t s :
  exists_ t s = false ->
  (lastInterpYear s <= t -> get t s = (Throw InterpolationNotPermitted, s)) /\
  (t < lastInterpYear s ->
   fst (get t s) =
   fst (fst (interp (mapdata s) (interpolator s) (name s) (dirty s)
                    (endinterp_allowed s) t))).
Proof.
  unfold exists_, get. destruct (StdMap.find t (mapdata s)); [discriminate|].
  intros _. split; intro L.
  - apply ltb_ge in L. now rewrite L.
  - apply ltb_lt in L. rewrite L.
    now destruct (interp _ _ _ _ _ _) as [[r i] b].
Qed.

(** C7. On a series with a latest sample at time [l], [allowPartialInterp( eia )]
    succeeds, sets the cutoff to [l], the extrapolation flag to [eia] and the
    dirty flag, and keeps the samples.  The cutoff is a snapshot: after any
    later [set] and [get] calls it is still [l], so a miss at [t] is handed to
    interpolation when [t < l] and refused as InterpolationNotPermitted when
    [l <= t], wherever the latest sample has moved to. *)
Theorem allowPartialInterp_snapshot (eia : bool) s (l : double) :
  last s = Ok l ->
  let s1 := snd (allowPartialInterp eia s) in
  fst (allowPartialInterp eia s) = Ok tt /\
  lastInterpYear s1 = l /\ endinterp_allowed s1 = eia /\ dirty s1 = true /\
  mapdata s1 = mapdata s /\
  forall later : list (call T_data),
    forallb (fun c => negb (policy_call c)) later = true ->
    let s2 := run later s1 in
    lastInterpYear s2 = l /\ endinterp_allowed s2 = eia /\
    forall t, exists_ t s2 = false ->
      (l <= t -> get t s2 = (Throw InterpolationNotPermitted, s2)) /\
      (t < l ->
       fst (get t s2) =
       fst (fst (interp (mapdata s2) (interpolator s2) (name s2) (dirty s2)
                        eia t))).
Proof.
  intros L. unfold allowPartialInterp. rewrite L. simpl.
  do 5 (split; [reflexivity|]).
  intros later F.
  destruct (run_policy later (set_interp l eia DEFAULT s) F) as [E1 E2].
  simpl in E1, E2.
  do 2 (split; [assumption|]).
  intros t X. destruct (get_miss t _ X) as [G1 G2].
  rewrite E1, E2 in *. now split.
Qed.

(** X16. What does hold of the default policy: with the cutoff at the smallest
    positive double, a miss at any time from that cutoff on is refused. *)
Lemma default_policy_refuses (cs : list (call T_data)) t :
  forallb (fun c => negb (policy_call c)) cs = true ->
  exists_ t (run cs tseries_new) = false -> DBL_MIN <= t ->
  get t (run cs tseries_new) =
  (Throw InterpolationNotPermitted, run cs tseries_new).
Proof.
  intros F X L. destruct (run_policy cs tseries_new F) as [E _].
  apply get_miss; trivial. now rewrite E.
Qed.

End Policy.

(** * The primary template *)

Section PrimaryFacts.
Context `{Interpolator} {T_data : Type}.
Variable to_double : T_data -> double.
Variable of_double : double -> T_data.
Implicit Types (s : tseries T_data) (t : double) (d : T_data).

Local Abbreviation helper := (interp_helper_primary to_double of_double).
Local Abbreviation get := (get (IH := helper)).
Local Abbreviation run := (run (IH := helper)).
Local Abbreviation fitted := (fitted to_double).
Local Abbreviation after_fit := (after_fit to_double).

(** [get] on a miss, branch by branch. *)
Lemma get_miss_primary t s :
  exists_ t s = false ->
  get t s =
  if ltb t (lastInterpYear s) then
    if Nat.ltb 1 (size s) then
      if beyond_end (mapdata s) t && negb (endinterp_allowed s)
      then (Throw ExtrapolationNotPermitted, after_fit s)
      else (Ok (of_double (f (fitted s) t)), after_fit s)
    else (Throw InsufficientSamples, s)
  else (Throw InterpolationNotPermitted, s).
Proof.
  unfold exists_, get.
  destruct (StdMap.find t (mapdata s)); [discriminate|]. intros _.
  destruct (ltb t (lastInterpYear s)); trivial.
  simpl. unfold interp_primary, after_fit, fitted, refit,
    size.
  destruct (Nat.ltb 1 (StdMap.size (mapdata s))); simpl.
  - destruct (dirty s);
      destruct (beyond_end (mapdata s) t && negb (endinterp_allowed s));
      reflexivity.
  - now rewrite tseries_eta.
Qed.

Lemma beyond_end_bounds s t (a b : double) :
  first s = Ok a -> last s = Ok b ->
  beyond_end (mapdata s) t = ltb t a || ltb b t.
Proof.
  unfold first, last, beyond_end.
  destruct (StdMap.begin (mapdata s)); [|discriminate].
  destruct (StdMap.rbegin (mapdata s)); [|discriminate].
  now intros [= <-] [= <-].
Qed.

Lemma exists_after_fit t s : exists_ t (after_fit s) = exists_ t s.
Proof. reflexivity. Qed.

Lemma after_fit_idem s : after_fit (after_fit s) = after_fit s.
Proof. reflexivity. Qed.

(** C4. On a series with at least two samples, a miss at a time before the
    cutoff and outside the closed range from [first()] to [last()] succeeds
    exactly when extrapolation is allowed; it then returns the value of the
    fitted engine, and otherwise throws ExtrapolationNotPermitted. *)
Theorem get_beyond_end s t (a b : double) :
  (1 < size s)%nat -> exists_ t s = false -> t < lastInterpYear s ->
  first s = Ok a -> last s = Ok b -> (t < a \/ b < t) ->
  (is_ok (fst (get t s)) = true <-> endinterp_allowed s = true) /\
  (endinterp_allowed s = true ->
   fst (get t s) = Ok (of_double (f (fitted s) t))) /\
  (endinterp_allowed s = false ->
   fst (get t s) = Throw ExtrapolationNotPermitted).
Proof.
  intros Sz X L Fa La Out.
  rewrite (get_miss_primary t s X).
  apply ltb_lt in L. rewrite L.
  apply Nat.ltb_lt in Sz. rewrite Sz.
  rewrite (beyond_end_bounds s t a b Fa La).
  assert (B : ltb t a || ltb b t = true).
  { apply orb_true_iff. destruct Out as [O|O]; apply ltb_lt in O; auto. }
  rewrite B. destruct (endinterp_allowed s); simpl.
  - repeat split; trivial. discriminate.
  - repeat split; trivial; discriminate.
Qed.

(** C6. When a [get] at a miss time succeeds through interpolation, the dirty
    flag is down afterwards, and a second [get] at the same time returns the
    same value and leaves the series, the fitted engine included, exactly as
    the first call left it: no refit. *)
Theorem get_interp_idempotent s t d (s1 : tseries T_data) :
  exists_ t s = false -> get t s = (Ok d, s1) ->
  dirty s1 = false /\ get t s1 = (Ok d, s1).
Proof.
  intros X G. rewrite (get_miss_primary t s X) in G.
  destruct (ltb t (lastInterpYear s)) eqn:L; [|discriminate].
  destruct (Nat.ltb 1 (size s)) eqn:Sz; [|discriminate].
  destruct (beyond_end (mapdata s) t && negb (endinterp_allowed s)) eqn:B;
    [discriminate|].
  injection G as <- <-. split; [reflexivity|].
  rewrite (get_miss_primary t (after_fit s)) by exact X.
  change (lastInterpYear (after_fit s)) with (lastInterpYear s).
  change (size (after_fit s)) with (size s).
  change (mapdata (after_fit s)) with (mapdata s).
  change (endinterp_allowed (after_fit s)) with (endinterp_allowed s).
  now rewrite L, Sz, B.
Qed.

(** C8. On a series with exactly one sample, every [get] at a miss time that
    is handed to interpolation throws InsufficientSamples (and leaves the
    series as it was); on a series with no sample, [first()] and [last()]
    throw EmptySeries. *)
Theorem boundary_failures s t :
  (size s = 1%nat -> exists_ t s = false -> t < lastInterpYear s ->
   get t s = (Throw InsufficientSamples, s)) /\
  (size s = 0%nat ->
   first s = Throw EmptySeries /\ last s = Throw EmptySeries).
Proof.
  split.
  - intros Sz X L. rewrite (get_miss_primary t s X).
    apply ltb_lt in L. now rewrite L, Sz.
  - unfold size, StdMap.size, first, last.
    destruct (mapdata s); [now split|discriminate].
Qed.

(** C10. A [get] that throws ExtrapolationNotPermitted on a dirty series has
    already refitted the engine from the current samples and cleared the
    dirty flag: the series after the failing call differs from the series
    before it. *)
Theorem failing_get_refits s t :
  dirty s = true ->
  fst (get t s) = Throw ExtrapolationNotPermitted ->
  exists_ t s = false /\ t < lastInterpYear s /\
  beyond_end (mapdata s) t = true /\ endinterp_allowed s = false /\
  snd (get t s) = after_fit s /\
  dirty (snd (get t s)) = false /\
  interpolator (snd (get t s)) = refit to_double s /\
  snd (get t s) <> s.
Proof.
  intros D G.
  assert (X : exists_ t s = false).
  { unfold exists_. unfold get in G.
    destruct (StdMap.find t (mapdata s)); [discriminate|reflexivity]. }
  rewrite (get_miss_primary t s X) in *.
  destruct (ltb t (lastInterpYear s)) eqn:L; [|discriminate].
  destruct (Nat.ltb 1 (size s)) eqn:Sz; [|discriminate].
  destruct (beyond_end (mapdata s) t) eqn:B;
    destruct (endinterp_allowed s) eqn:E; try discriminate.
  apply ltb_lt in L. simpl.
  repeat split; trivial.
  - unfold fitted. now rewrite D.
  - intro A. apply (f_equal dirty) in A. simpl in A. congruence.
Qed.







(** C3, the code at a failing input.  A freshly constructed series given two
    samples on either side of time 0 answers [get( 0 )] with an interpolated
    value: the constructor's cutoff [numeric_limits<double>::min()] is the
    smallest positive double, so every time up to 0 lies before it. *)
Theorem default_cutoff_admits_interpolation (a b : T_data) :
  let s := run [Set_ (-10) a; Set_ 10 b] tseries_new in
  0 < lastInterpYear s /\
  exists_ 0 s = false /\
  fst (get 0 s) =
  Ok (of_double
        (f (newdata 2 [-10; 10] [to_double a; to_double b]
                    (set_method DEFAULT h_interpolator_init)) 0)).
Proof. repeat split. Qed.

End PrimaryFacts.

(** * The specialisation for quantities with a unit *)

Section UnitvalFacts.
Context `{Interpolator}.
Implicit Types (s : tseries unitval) (t : double).

(** Asking a quantity for its value in its own unit never fails. *)
Lemma value_units (u : unitval) : value u (units u) = Some (val u).
Proof. unfold value, unit_types_eqb. now rewrite Nat.eqb_refl. Qed.

Lemma fill_y_total (userData : StdMap.t unitval) :
  fill_y userData = Some (map (fun p => val (snd p)) userData).
Proof.
  induction userData as [|[k u] m IHm]; simpl; trivial.
  now rewrite value_units, IHm.
Qed.

(** X17. The specialisation follows the primary template branch for branch, with
    [value] as the conversion to [double] and the unit of the first sample
    put on the way back. *)
Lemma interp_unitval_as_primary (userData : StdMap.t unitval) (b : double * unitval)
    (i : h_interpolator) (n : string) (isDirty eia : bool) (index : double) :
  StdMap.begin userData = Some b ->
  interp_unitval userData i n isDirty eia index =
  interp_primary val (fun y => mk_unitval y (units (snd b)))
                 userData i n isDirty eia index.
Proof.
  intro B. unfold interp_unitval, interp_primary.
  rewrite B, fill_y_total. reflexivity.
Qed.

(** C9. On a series of quantities, any value that [get] returns on a miss
    (the series then has at least two samples) carries the unit of the
    sample at [begin()], which is the sample of the earliest time, and the
    magnitude the engine computes. *)
Theorem interp_unitval_units s t (v : unitval) :
  StdMap.wf (mapdata s) -> exists_ t s = false -> fst (get t s) = Ok v ->
  (1 < size s)%nat /\
  exists p, StdMap.begin (mapdata s) = Some p /\
            first s = Ok (fst p) /\
            (forall k, In k (StdMap.keys (mapdata s)) -> fst p <= k) /\
            units v = units (snd p) /\
            val v = f (interpolator (snd (get t s))) t.
Proof.
  intros W X G. unfold exists_ in X. unfold get in *.
  destruct (StdMap.find t (mapdata s)); [discriminate|].
  destruct (ltb t (lastInterpYear s)); [|discriminate].
  simpl in *. unfold interp_unitval in *.
  destruct (Nat.ltb 1 (StdMap.size (mapdata s))) eqn:Sz; [|discriminate].
  apply Nat.ltb_lt in Sz. split; [exact Sz|].
  simpl in *.
  destruct (dirty s);
    destruct (beyond_end (mapdata s) t && negb (endinterp_allowed s));
    try discriminate;
    unfold first;
    destruct (StdMap.begin (mapdata s)) as [p|] eqn:B; try discriminate;
    simpl in G; injection G as <-; exists p; simpl;
    (repeat split; trivial);
    intros k I; now apply (begin_least (mapdata s) p k).
Qed.

End UnitvalFacts.

(** * Scenario A *)

Section ScenarioAFacts.
Context `{Interpolator}.

Local Abbreviation get := (get (IH := interp_helper_double)).
Local Abbreviation run := (run (IH := interp_helper_double)).

(** The calls of the scenario build the series of the scenario. *)
Lemma callsA_scenarioA :
  run callsA tseries_new =
  scenarioA true
    (set_method DEFAULT (set_method DEFAULT h_interpolator_init)) "?".
Proof. reflexivity. Qed.

(** C5, as the code has it. On the series of scenario A, whatever its dirty
    flag and engine state, [get( 2020 )] throws InterpolationNotPermitted
    and leaves the series alone: 2020 is not before the cutoff 2010, and
    the range check of the helper is never reached. *)
Theorem scenarioA_get_2020 (dirty0 : bool) (i : h_interpolator) (n : string) :
  get 2020 (scenarioA dirty0 i n) =
  (Throw InterpolationNotPermitted, scenarioA dirty0 i n).
Proof.
  apply get_miss.
  - (* 2020 is not a stored time *) reflexivity.
  - (* the cutoff 2010 is not after 2020 *) vm_compute. discriminate.
Qed.

(** Extrapolation is what the series refuses below its first sample. *)
Lemma scenarioA_get_1980 (dirty0 : bool) (i : h_interpolator) (n : string) :
  fst (get 1980 (scenarioA dirty0 i n)) = Throw ExtrapolationNotPermitted.
Proof. now destruct dirty0. Qed.

End ScenarioAFacts.

(** * The container at work on concrete series, with the linear engine *)

Import Example.

(** C1 at a sample that was overwritten after a policy change. *)
Lemma get_exact_match_witness :
  exists d, last_set 2000 callsC = Some d /\
            get_double 2000 (run_double callsC) = (Ok d, run_double callsC).
Proof.
  apply (get_exact_match (H := Linear.engine) callsC 2000 (run_double callsC));
    reflexivity.
Defined.



(** C4 on scenario A, below the first sample. *)
Lemma get_beyond_end_witness :
  fst (get_double 1980 seriesA) = Throw ExtrapolationNotPermitted.
Proof.
  apply (get_beyond_end (H := Linear.engine) (fun d => d) (fun d => d)
           seriesA 1980 1990 2010).
  - vm_compute; lia.
  - reflexivity.
  - reflexivity.
  - reflexivity.
  - reflexivity.
  - left. reflexivity.
  - reflexivity.
Defined.

(** C5, refuted as stated: the failure of [get( 2020 )] on scenario A is not
    ExtrapolationNotPermitted. *)
Lemma scenarioA_get_2020_not_extrapolation :
  mapdata seriesA = samplesA /\ lastInterpYear seriesA = 2010 /\
  endinterp_allowed seriesA = false /\
  fst (get_double 2020 seriesA) <> Throw ExtrapolationNotPermitted.
Proof. repeat split. discriminate. Qed.

(** C6 on scenario A. *)
Lemma get_interp_idempotent_witness :
  dirty seriesA_fitted = false /\
  get_double 1995 seriesA_fitted = (Ok 15, seriesA_fitted).
Proof.
  apply (get_interp_idempotent (H := Linear.engine) (fun d => d) (fun d => d)
           seriesA 1995 15 seriesA_fitted); reflexivity.
Defined.

(** C7: the cutoff taken at 2010 stays there when the series grows to 2020. *)
Lemma allowPartialInterp_snapshot_witness :
  let s2 := run_double (callsA ++ [Set_ 2020 30]) in
  last s2 = Ok 2020 /\ lastInterpYear s2 = 2010 /\
  get_double 2015 s2 = (Throw InterpolationNotPermitted, s2).
Proof.
  pose proof (allowPartialInterp_snapshot (H := Linear.engine)
                (IH := interp_helper_double) false (run_double fillA) 2010
                eq_refl) as S.
  destruct S as (_ & _ & _ & _ & _ & S).
  destruct (S [Set_ 2020 30] eq_refl) as (E & _ & G).
  split; [reflexivity|]. split; [exact E|].
  apply (G 2015); [reflexivity|]. vm_compute; discriminate.
Defined.

(** C8 on a series with one sample and on the empty series. *)
Lemma boundary_failures_witness :
  get_double 1995 seriesD = (Throw InsufficientSamples, seriesD) /\
  first (run_double []) = Throw EmptySeries /\
  last (run_double []) = Throw EmptySeries.
Proof.
  split.
  - apply (boundary_failures (H := Linear.engine) (fun d => d) (fun d => d)
             seriesD 1995); reflexivity.
  - apply (boundary_failures (H := Linear.engine) (fun d => d) (fun d => d)
             (run_double []) 0); reflexivity.
Defined.

(** C9: the unit of the first sample, not of the nearest one. *)
Lemma interp_unitval_units_witness :
  exists v, fst (get (H := Linear.engine) 1999 seriesU) = Ok v /\
            units v = 3%nat /\ val v = 19.
Proof.
  exists (mk_unitval 19 3%nat). split; [reflexivity|].
  destruct (interp_unitval_units (H := Linear.engine) seriesU 1999
              (mk_unitval 19 3%nat)) as (_ & p & B & _ & _ & U & V).
  - repeat constructor.
  - reflexivity.
  - reflexivity.
  - injection B as <-. split; [exact U|reflexivity].
Defined.

(** C10 on scenario A: the refused [get( 1980 )] has fitted the engine. *)
Lemma failing_get_refits_witness :
  dirty seriesA = true /\
  dirty (snd (get_double 1980 seriesA)) = false /\
  Linear.knots (interpolator (snd (get_double 1980 seriesA))) = samplesA /\
  snd (get_double 1980 seriesA) <> seriesA.
Proof.
  destruct (failing_get_refits (H := Linear.engine) (fun d => d) (fun d => d)
              seriesA 1980) as (_ & _ & _ & _ & _ & D & I & N).
  - reflexivity.
  - reflexivity.
  - split; [reflexivity|]. split; [exact D|]. split; [|exact N].
    exact (f_equal Linear.knots I).
Defined.

(** * More facts about the map *)

Section MapMore.
Context {T : Type}.
Implicit Types (m : StdMap.t T) (k : double) (d : T).

Lemma find_Some_In k d m :
  StdMap.find k m = Some d -> exists k', In (k', d) m /\ k == k'.
Proof.
  induction m as [|[k' d'] m IHm]; simpl; [discriminate|].
  destruct (Qeq_bool k k') eqn:E.
  - intros [= <-]. exists k'. split; [now left|]. now apply Qeq_bool_iff.
  - intro F. destruct (IHm F) as (k2 & I & E2). exists k2. split; auto.
Qed.

Lemma In_find k m :
  In k (StdMap.keys m) -> exists d, StdMap.find k m = Some d.
Proof.
  induction m as [|[k' d'] m IHm]; simpl; [contradiction|].
  intros [<- | I].
  - rewrite Qeq_bool_refl. now exists d'.
  - destruct (Qeq_bool k k'); [now exists d'|]. now apply IHm.
Qed.

Lemma find_above k m :
  Forall (Qlt k) (StdMap.keys m) -> StdMap.find k m = None.
Proof.
  induction m as [|[k' d'] m IHm]; simpl; trivial.
  intro F. inversion F as [|? ? L F']; subst.
  assert (E : Qeq_bool k k' = false)
    by (apply Qeq_bool_false; intro E; rewrite E in L;
        exact (Qlt_irrefl _ L)).
  rewrite E. now apply IHm.
Qed.

Lemma rbegin_In (p : double * T) m : StdMap.rbegin m = Some p -> In p m.
Proof.
  induction m as [|q m IHm]; [discriminate|].
  destruct m as [|r m].
  - intros [= <-]. now left.
  - rewrite rbegin_cons2. intro E. right. now apply IHm.
Qed.

(** In a well-formed map [rbegin] holds the latest key. *)
Lemma rbegin_greatest m (p : double * T) k :
  StdMap.wf m -> StdMap.rbegin m = Some p -> In k (StdMap.keys m) -> k <= fst p.
Proof.
  unfold StdMap.wf.
  induction m as [|q m IHm]; [discriminate|].
  intros W E I. simpl in W. inversion W as [|? ? W' F]; subst.
  destruct m as [|r m].
  - injection E as <-. destruct I as [<- | []]. apply Qle_refl.
  - rewrite rbegin_cons2 in E. destruct I as [<- | I].
    + apply Qlt_le_weak. rewrite Forall_forall in F. apply F.
      apply rbegin_In in E. now apply (in_map fst) in E.
    + now apply IHm.
Qed.

(** The size after an assignment: an equivalent key is overwritten, a new
    key adds an entry. *)
Lemma size_assign k d m :
  StdMap.wf m ->
  StdMap.size (StdMap.assign k d m) =
  match StdMap.find k m with
  | Some _ => StdMap.size m
  | None => S (StdMap.size m)
  end.
Proof.
  unfold StdMap.wf, StdMap.size.
  induction m as [|[k' d'] m IHm]; simpl; intro W; trivial.
  inversion W as [|? ? W' F]; subst.
  destruct (ltb k k') eqn:L1.
  - apply ltb_lt in L1.
    assert (E : Qeq_bool k k' = false)
      by (apply Qeq_bool_false; intro E; rewrite E in L1;
          exact (Qlt_irrefl _ L1)).
    rewrite E, find_above; trivial.
    eapply Forall_impl; [|exact F]. intros x Hx. simpl in Hx.
    now apply Qlt_trans with k'.
  - destruct (ltb k' k) eqn:L2.
    + apply ltb_lt in L2.
      assert (E : Qeq_bool k k' = false)
        by (apply Qeq_bool_false; intro E; rewrite E in L2;
            exact (Qlt_irrefl _ L2)).
      rewrite E. simpl. rewrite (IHm W').
      now destruct (StdMap.find k m).
    + apply ltb_ge in L1, L2.
      assert (E : Qeq_bool k k' = true)
        by (apply Qeq_bool_iff, Qle_antisym; assumption).
      now rewrite E.
Qed.

(** The last key after an assignment into a well-formed map. *)
Lemma rbegin_assign_key k d m (pb : double * T) :
  StdMap.wf m -> StdMap.rbegin m = Some pb ->
  exists p, StdMap.rbegin (StdMap.assign k d m) = Some p /\
            fst p = if ltb (fst pb) k then k else fst pb.
Proof.
  revert pb. induction m as [|[k' d'] m IHm]; intros pb W E; [discriminate|].
  assert (Kb : k' <= fst pb).
  { apply (begin_least ((k', d') :: m) (k', d') (fst pb)); trivial.
    apply rbegin_In in E. now apply (in_map fst) in E. }
  assert (W' : StdMap.wf m).
  { unfold StdMap.wf in *. simpl in W. now inversion W. }
  cbn [StdMap.assign].
  destruct (ltb k k') eqn:L1.
  - rewrite rbegin_cons2, E. exists pb. split; trivial.
    apply ltb_lt in L1.
    assert (L : ltb (fst pb) k = false) by (apply ltb_ge; simpl in Kb; lra).
    now rewrite L.
  - destruct (ltb k' k) eqn:L2.
    + destruct m as [|q m].
      * injection E as <-. simpl. rewrite L2.
        eexists; split; reflexivity.
      * rewrite rbegin_cons2 in E.
        destruct (IHm pb W' E) as (p & Ep & Kp).
        exists p. split; trivial.
        destruct (StdMap.assign k d (q :: m)) eqn:A.
        -- destruct q as [kq dq]. simpl in A.
           destruct (ltb k kq); [discriminate|].
           destruct (ltb kq k); discriminate.
        -- now rewrite rbegin_cons2.
    + apply ltb_ge in L1, L2.
      assert (L : ltb (fst pb) k = false) by (apply ltb_ge; simpl in Kb; lra).
      rewrite L.
      destruct m as [|q m].
      * injection E as <-. eexists; split; reflexivity.
      * rewrite rbegin_cons2 in *. now exists pb.
Qed.

(** An assignment at or after a cutoff leaves the samples before it alone. *)
Lemma before_assign (c : double) k d m :
  c <= k -> before c (StdMap.assign k d m) = before c m.
Proof.
  intro L. unfold before.
  assert (Lk : ltb k c = false) by now apply ltb_ge.
  induction m as [|[k' d'] m IHm]; simpl.
  - now rewrite Lk.
  - destruct (ltb k k') eqn:L1; simpl.
    + now rewrite Lk.
    + destruct (ltb k' k) eqn:L2; simpl.
      * now rewrite IHm.
      * apply ltb_ge in L2.
        assert (Lk' : ltb k' c = false) by (apply ltb_ge; lra).
        now rewrite Lk'.
Qed.

End MapMore.

(** * The samples of a series *)

Section SeriesMore.
Context `{Interpolator}.
Context {T_data : Type} {IH : interp_helper T_data}.
Implicit Types (s : tseries T_data) (t : double) (d : T_data).

Lemma last_set_Some_iff t (cs : list (call T_data)) :
  (exists d, last_set t cs = Some d) <->
  (exists t' d, In (Set_ t' d) cs /\ t == t').
Proof.
  induction cs as [|c cs IHcs]; simpl.
  - split; [intros (d & E); discriminate|intros (t' & d & [] & _)].
  - destruct (last_set t cs) as [d0|] eqn:L.
    + split; [|intros _; now exists d0].
      intros _. destruct (proj1 IHcs) as (t' & d & I & E); [now exists d0|].
      exists t', d. split; auto.
    + split.
      * intros (d & E). destruct c as [t' d'| | |]; try discriminate.
        destruct (Qeq_bool t t') eqn:Q; [|discriminate].
        exists t', d'. split; [now left|now apply Qeq_bool_iff].
      * intros (t' & d & [-> | I] & E).
        -- apply Qeq_bool_iff in E. rewrite E. now exists d.
        -- destruct (proj2 IHcs) as (d0 & E0); [now exists t', d|discriminate].
Qed.

(** X1. A series built from the constructor holds a sample at [t] exactly
    when one of the calls was a [set] at (a time equal to) [t]: reads and
    policy changes neither add nor drop samples. *)
Theorem exists_iff_set (cs : list (call T_data)) t :
  exists_ t (run cs tseries_new) = true <->
  (exists t' d, In (Set_ t' d) cs /\ t == t').
Proof.
  rewrite <- last_set_Some_iff. unfold exists_. rewrite run_find. simpl.
  destruct (last_set t cs) as [d|].
  - split; [intros _; now exists d|reflexivity].
  - split; [discriminate|intros (d & E); discriminate].
Qed.

Lemma step_size s (c : call T_data) : (size s <= size (step s c))%nat.
Proof.
  unfold size. destruct c as [t d|t|eia|eia]; simpl.
  - apply size_assign_le.
  - now rewrite (proj1 (get_frame t s)).
  - reflexivity.
  - now rewrite allowPartialInterp_mapdata.
Qed.

Lemma run_size (cs : list (call T_data)) s : (size s <= size (run cs s))%nat.
Proof.
  revert s. induction cs as [|c cs IHcs]; intro s; [reflexivity|].
  change (run (c :: cs) s) with (run cs (step s c)).
  pose proof (step_size s c). pose proof (IHcs (step s c)). lia.
Qed.

(** X2. No call ever removes a sample: whatever calls follow, the size does
    not shrink and a time that is stored stays stored. *)
Theorem samples_never_removed (cs : list (call T_data)) s t :
  (size s <= size (run cs s))%nat /\
  (exists_ t s = true -> exists_ t (run cs s) = true).
Proof.
  split; [apply run_size|].
  unfold exists_. rewrite run_find.
  destruct (last_set t cs); trivial.
Qed.

(** X3. [set] at a stored time overwrites and keeps the size; at a new time
    it adds exactly one sample. *)
Theorem size_set s t d :
  StdMap.wf (mapdata s) ->
  size (set t d s) = if exists_ t s then size s else S (size s).
Proof.
  intro W. unfold size, exists_. simpl. rewrite (size_assign t d _ W).
  now destruct (StdMap.find t (mapdata s)).
Qed.

(** X4. On a non-empty series [first()] and [last()] are stored times, and
    every stored time lies between them. *)
Theorem first_last_bounds s (a b : double) :
  StdMap.wf (mapdata s) -> first s = Ok a -> last s = Ok b ->
  exists_ a s = true /\ exists_ b s = true /\
  forall t, exists_ t s = true -> a <= t <= b.
Proof.
  unfold first, last, exists_. intros W Fa La.
  destruct (StdMap.begin (mapdata s)) as [pa|] eqn:B; [|discriminate].
  destruct (StdMap.rbegin (mapdata s)) as [pb|] eqn:R; [|discriminate].
  injection Fa as <-. injection La as <-.
  split; [|split].
  - destruct (mapdata s) as [|[k0 d0] m]; [discriminate|].
    injection B as <-. simpl. now rewrite Qeq_bool_refl.
  - apply rbegin_In in R. apply (in_map fst) in R.
    destruct (In_find _ _ R) as (d & E). now rewrite E.
  - intros t X.
    destruct (StdMap.find t (mapdata s)) as [d|] eqn:F; [|discriminate].
    destruct (find_Some_In _ _ _ F) as (k & I & E).
    apply (in_map fst) in I. simpl in I.
    pose proof (begin_least _ _ _ W B I).
    pose proof (rbegin_greatest _ _ _ W R I).
    rewrite E. now split.
Qed.

(** X5. [set( t, d )] moves [first()] down to [t] when [t] is earlier,
    [last()] up to [t] when [t] is later, and otherwise leaves them; on an
    empty series both become [t]. *)
Theorem first_last_set s t d :
  StdMap.wf (mapdata s) ->
  first (set t d s) =
    Ok (match first s with Ok a => if ltb t a then t else a | Throw _ => t end)
  /\
  last (set t d s) =
    Ok (match last s with Ok b => if ltb b t then t else b | Throw _ => t end).
Proof.
  intro W. unfold first, last. simpl.
  destruct (mapdata s) as [|[k0 d0] m] eqn:M; [now split|].
  split.
  - destruct (begin_assign t d k0 d0 m) as (p & Ep & Kp).
    rewrite Ep, Kp. reflexivity.
  - destruct (rbegin_cons (k0, d0) m) as (pb & Eb).
    destruct (rbegin_assign_key t d _ pb W Eb) as (p & Ep & Kp).
    rewrite Ep, Eb, Kp. reflexivity.
Qed.

Lemma run_gets_frame (cs : list (call T_data)) s :
  forallb is_get cs = true ->
  mapdata (run cs s) = mapdata s /\
  lastInterpYear (run cs s) = lastInterpYear s /\
  endinterp_allowed (run cs s) = endinterp_allowed s /\
  name (run cs s) = name s.
Proof.
  revert s. induction cs as [|c cs IHcs]; intros s F; [now repeat split|].
  change (run (c :: cs) s) with (run cs (step s c)).
  simpl in F. apply andb_true_iff in F. destruct F as [Fc F].
  destruct c as [|t| |]; try discriminate.
  destruct (IHcs (step s (Get t)) F) as (E1 & E2 & E3 & E4).
  destruct (get_frame t s) as (G1 & G2 & G3 & G4). simpl in *.
  rewrite E1, E2, E3, E4. now repeat split.
Qed.

(** X6. Reading never changes what the series stores or its policy: after
    any number of [get] calls, failed ones included, [exists], [first],
    [last] and [size] answer as before, and the cutoff and the extrapolation
    flag are the same. *)
Theorem gets_change_no_sample (cs : list (call T_data)) s :
  forallb is_get cs = true ->
  (forall t, exists_ t (run cs s) = exists_ t s) /\
  first (run cs s) = first s /\ last (run cs s) = last s /\
  size (run cs s) = size s /\
  lastInterpYear (run cs s) = lastInterpYear s /\
  endinterp_allowed (run cs s) = endinterp_allowed s.
Proof.
  intro F. destruct (run_gets_frame cs s F) as (E1 & E2 & E3 & _).
  unfold exists_, first, last, size. rewrite E1. now repeat split.
Qed.

(** X7. [allowPartialInterp] throws exactly on the empty series (with
    EmptySeries), and then leaves the series, policy included, as it was. *)
Theorem allowPartialInterp_empty (eia : bool) s :
  (fst (allowPartialInterp eia s) = Throw EmptySeries <-> size s = 0%nat) /\
  (is_ok (fst (allowPartialInterp eia s)) = false ->
   snd (allowPartialInterp eia s) = s).
Proof.
  unfold allowPartialInterp, last, size, StdMap.size.
  destruct (mapdata s) as [|p m] eqn:M.
  - simpl. now repeat split.
  - destruct (rbegin_cons p m) as (q & E). rewrite E. simpl.
    split; [split; discriminate|discriminate].
Qed.

End SeriesMore.

(** * Interpolation and the cache, for the primary template *)

Section PrimaryMore.
Context `{Interpolator} {T_data : Type}.
Variable to_double : T_data -> double.
Variable of_double : double -> T_data.
Implicit Types (s : tseries T_data) (t : double) (d : T_data).

Local Abbreviation helper := (interp_helper_primary to_double of_double).
Local Abbreviation get := (get (IH := helper)).
Local Abbreviation run := (run (IH := helper)).
Local Abbreviation step := (step (IH := helper)).
Local Abbreviation fitted := (fitted to_double).
Local Abbreviation after_fit := (after_fit to_double).
Local Abbreviation fit_of := (fit_of to_double).
Local Abbreviation coherent := (coherent to_double).

(** A time that is not stored but lies between the first and the last key
    has a key on either side. *)
Lemma inside_range_size (m : StdMap.t T_data) t (pa pb : double * T_data) :
  StdMap.find t m = None ->
  StdMap.begin m = Some pa -> StdMap.rbegin m = Some pb ->
  fst pa <= t -> t <= fst pb -> (1 < StdMap.size m)%nat.
Proof.
  intros F B R La Lb. destruct m as [|p [|q m]]; [discriminate| |simpl; lia].
  injection B as <-. injection R as <-. destruct p as [k d].
  simpl in *.
  assert (E : Qeq_bool t k = true)
    by (apply Qeq_bool_iff, Qle_antisym; assumption).
  rewrite E in F. discriminate.
Qed.

(** The two tests of the helper on a miss between [first()] and [last()]. *)
Lemma miss_inside_range s t (a b : double) :
  exists_ t s = false -> first s = Ok a -> last s = Ok b -> a <= t <= b ->
  Nat.ltb 1 (size s) = true /\ beyond_end (mapdata s) t = false.
Proof.
  intros X Fa La [L1 L2]. split.
  - apply Nat.ltb_lt. unfold exists_, first, last, size in *.
    destruct (StdMap.find t (mapdata s)) eqn:Fd; [discriminate|].
    destruct (StdMap.begin (mapdata s)) as [pa|] eqn:B; [|discriminate].
    destruct (StdMap.rbegin (mapdata s)) as [pb|] eqn:R; [|discriminate].
    injection Fa as <-. injection La as <-.
    now apply (inside_range_size (mapdata s) t pa pb).
  - rewrite (beyond_end_bounds s t a b Fa La).
    apply ltb_ge in L1. apply ltb_ge in L2. now rewrite L1, L2.
Qed.

(** X8. A miss at a time before the cutoff that lies between [first()] and
    [last()] is always answered, with the value of the fitted engine,
    whatever the extrapolation flag says: it needs no further condition, the
    series necessarily has two samples. *)
Theorem get_inside_range s t (a b : double) :
  exists_ t s = false -> t < lastInterpYear s ->
  first s = Ok a -> last s = Ok b -> a <= t <= b ->
  get t s = (Ok (of_double (f (fitted s) t)), after_fit s).
Proof.
  intros X L Fa La Bd.
  rewrite (get_miss_primary to_double of_double t s X).
  apply ltb_lt in L. rewrite L.
  destruct (miss_inside_range s t a b X Fa La Bd) as [Sz B].
  now rewrite Sz, B.
Qed.

(** X9. After [allowInterp( true )] on a series with at least two samples,
    [get] answers at every time below [numeric_limits<double>::max()], and
    keeps doing so after any later [set] and [get] calls. *)
Theorem allowInterp_total s (cs : list (call T_data)) t :
  (1 < size s)%nat ->
  forallb (fun c => negb (policy_call c)) cs = true ->
  t < DBL_MAX ->
  is_ok (fst (get t (run cs (allowInterp true s)))) = true.
Proof.
  intros Sz F L.
  destruct (run_policy (IH := helper) cs (allowInterp true s) F) as [E1 E2].
  pose proof (run_size (IH := helper) cs (allowInterp true s)) as Sz'.
  change (size (allowInterp true s)) with (size s) in Sz'.
  simpl in E1, E2.
  destruct (exists_ t (run cs (allowInterp true s))) eqn:X.
  - unfold exists_ in X. unfold get.
    destruct (StdMap.find t _); [reflexivity|discriminate].
  - rewrite (get_miss_primary to_double of_double t _ X), E1, E2.
    apply ltb_lt in L. rewrite L.
    assert (S2 : Nat.ltb 1 (size (run cs (allowInterp true s))) = true)
      by (apply Nat.ltb_lt; lia).
    rewrite S2, andb_false_r. reflexivity.
Qed.

(** X10. After [allowPartialInterp], extrapolation can only be asked for at
    the low end: whatever [set] and [get] calls follow, [get] answers at
    every time from [first()] up to the cutoff, also with extrapolation
    disallowed. *)
Theorem allowPartialInterp_low_end s (eia : bool) (l : double)
    (cs : list (call T_data)) t (a : double) :
  StdMap.wf (mapdata s) -> last s = Ok l ->
  forallb (fun c => negb (policy_call c)) cs = true ->
  first (run cs (snd (allowPartialInterp eia s))) = Ok a ->
  a <= t -> t < l ->
  is_ok (fst (get t (run cs (snd (allowPartialInterp eia s))))) = true.
Proof.
  intros W La F Fa L1 L2.
  unfold allowPartialInterp in *. rewrite La in *. simpl in *.
  set (s1 := set_interp l eia DEFAULT s) in *.
  destruct (run_policy (IH := helper) cs s1 F) as [E1 _]. simpl in E1.
  (* the old last sample is still stored, so the new last is not before it *)
  assert (Xl : exists d, StdMap.find l (mapdata (run cs s1)) = Some d).
  { rewrite run_find. destruct (last_set l cs) as [d|]; [now exists d|].
    unfold last in La. simpl.
    destruct (StdMap.rbegin (mapdata s)) as [pb|] eqn:R; [|discriminate].
    injection La as <-. apply rbegin_In in R. apply (in_map fst) in R.
    now apply In_find. }
  destruct Xl as (dl & Fl).
  destruct (find_Some_In _ _ _ Fl) as (k & Ik & Ek).
  apply (in_map fst) in Ik. simpl in Ik.
  assert (W2 : StdMap.wf (mapdata (run cs s1)))
    by (apply run_wf; exact W).
  destruct (last (run cs s1)) as [b|e] eqn:Lb.
  2:{ unfold first, last in *.
      destruct (mapdata (run cs s1)) as [|p m]; [discriminate|].
      destruct (rbegin_cons p m) as (q & E). rewrite E in Lb. discriminate. }
  assert (Bl : l <= b).
  { unfold last in Lb.
    destruct (StdMap.rbegin (mapdata (run cs s1))) as [pb|] eqn:R;
      [|discriminate].
    injection Lb as <-. rewrite Ek.
    now apply (rbegin_greatest (mapdata (run cs s1)) pb k). }
  destruct (exists_ t (run cs s1)) eqn:X.
  - unfold exists_ in X. unfold get.
    destruct (StdMap.find t _); [reflexivity|discriminate].
  - rewrite (get_miss_primary to_double of_double t _ X), E1.
    apply ltb_lt in L2. rewrite L2.
    destruct (miss_inside_range (run cs s1) t a b X Fa Lb) as [Sz B].
    + split; [exact L1|]. apply ltb_lt in L2. lra.
    + now rewrite Sz, B.
Qed.

Lemma after_fit_clean s : dirty s = false -> after_fit s = s.
Proof.
  destruct s as [m c e dt i n]. simpl. intros ->. reflexivity.
Qed.

Lemma get_clean t s : dirty s = false -> snd (get t s) = s.
Proof.
  intro D. destruct (exists_ t s) eqn:X.
  - unfold exists_ in X. unfold get.
    destruct (StdMap.find t (mapdata s)); [reflexivity|discriminate].
  - rewrite (get_miss_primary to_double of_double t s X).
    rewrite (after_fit_clean s D).
    destruct (ltb t (lastInterpYear s)); trivial.
    destruct (Nat.ltb 1 (size s)); trivial.
    now destruct (beyond_end (mapdata s) t && negb (endinterp_allowed s)).
Qed.

(** X11. On a series whose dirty flag is down, reading is pure: any number
    of [get] calls, at any times and whether they succeed or throw, leave
    the series exactly as it was, so the engine is not fitted again. *)
Theorem clean_gets_pure (cs : list (call T_data)) s :
  dirty s = false -> forallb is_get cs = true -> run cs s = s.
Proof.
  revert s. induction cs as [|c cs IHcs]; intros s D F; [reflexivity|].
  change (run (c :: cs) s) with (run cs (step s c)).
  simpl in F. apply andb_true_iff in F. destruct F as [Fc F].
  destruct c as [|t| |]; try discriminate. simpl.
  rewrite (get_clean t s D). now apply IHcs.
Qed.

(** X12. [set] at a time before the cutoff raises the dirty flag, and the
    next [get] that reaches the helper past its size assertion fits the
    engine anew on all the samples, the new one among them, and lowers the
    flag. *)
Theorem set_before_cutoff_refits s t d t' :
  t < lastInterpYear s ->
  dirty (set t d s) = true /\
  StdMap.find t (mapdata (set t d s)) = Some d /\
  (exists_ t' (set t d s) = false -> t' < lastInterpYear s ->
   (1 < size (set t d s))%nat ->
   interpolator (snd (get t' (set t d s))) =
     fit_of (mapdata (set t d s)) (interpolator s) /\
   dirty (snd (get t' (set t d s))) = false).
Proof.
  intro L. apply ltb_lt in L.
  assert (D : dirty (set t d s) = true) by (simpl; now rewrite L).
  split; [exact D|]. split; [simpl; apply find_assign_same|].
  intros X L' Sz.
  rewrite (get_miss_primary to_double of_double t' _ X).
  change (lastInterpYear (set t d s)) with (lastInterpYear s).
  apply ltb_lt in L'. rewrite L'.
  apply Nat.ltb_lt in Sz. rewrite Sz.
  destruct (beyond_end (mapdata (set t d s)) t' &&
            negb (endinterp_allowed (set t d s)));
    simpl; unfold fitted, refit; simpl; rewrite L; split; reflexivity.
Qed.

End PrimaryMore.

(** * What the dirty flag guarantees *)

Section CacheFacts.
Context `{Interpolator} {T_data : Type}.
Variable to_double : T_data -> double.
Variable of_double : double -> T_data.
Implicit Types (s : tseries T_data) (t : double) (d : T_data).

Local Abbreviation helper := (interp_helper_primary to_double of_double).
Local Abbreviation get := (get (IH := helper)).
Local Abbreviation run := (run (IH := helper)).
Local Abbreviation step := (step (IH := helper)).
Local Abbreviation fitted := (fitted to_double).
Local Abbreviation after_fit := (after_fit to_double).
Local Abbreviation fit_of := (fit_of to_double).
Local Abbreviation coherent := (coherent to_double).

Lemma coherent_new : coherent tseries_new.
Proof. intros _. right. now split. Qed.

Lemma coherent_after_fit s : coherent s -> coherent (after_fit s).
Proof.
  intros C _. destruct (dirty s) eqn:D.
  - left. exists (mapdata s), (interpolator s). simpl. unfold fitted.
    rewrite D. now split.
  - rewrite (after_fit_clean to_double s D). now apply C.
Qed.

Lemma coherent_get t s : coherent s -> coherent (snd (get t s)).
Proof.
  intro C. destruct (exists_ t s) eqn:X.
  - unfold exists_ in X. unfold get.
    destruct (StdMap.find t (mapdata s)); [exact C|discriminate].
  - rewrite (get_miss_primary to_double of_double t s X).
    destruct (ltb t (lastInterpYear s)); [|exact C].
    destruct (Nat.ltb 1 (size s)); [|exact C].
    destruct (beyond_end (mapdata s) t && negb (endinterp_allowed s));
      now apply coherent_after_fit.
Qed.

Lemma coherent_set t d s : coherent s -> coherent (set t d s).
Proof.
  intros C D. simpl in D.
  destruct (ltb t (lastInterpYear s)) eqn:L; [discriminate|].
  apply ltb_ge in L. simpl.
  rewrite (before_assign (lastInterpYear s) t d (mapdata s) L).
  now apply C.
Qed.

Lemma coherent_step s (c : call T_data) : coherent s -> coherent (step s c).
Proof.
  intro C. destruct c as [t d|t|eia|eia]; simpl.
  - now apply coherent_set.
  - now apply coherent_get.
  - intro D. discriminate.
  - unfold allowPartialInterp. destruct (last s); [|exact C].
    intro D. discriminate.
Qed.

(** The invariant holds of every series a client can build. *)
Lemma coherent_run (cs : list (call T_data)) s :
  coherent s -> coherent (run cs s).
Proof.
  revert s. induction cs as [|c cs IHcs]; intros s C; [exact C|].
  change (run (c :: cs) s) with (run cs (step s c)).
  now apply IHcs, coherent_step.
Qed.

(** X13. On a series built from the constructor by any calls, a value that
    [get] returns on a miss is always the value of an engine that has been
    fitted by [newdata], and fitted on samples that agree with the stored
    ones at every time before the cutoff: an engine that was never fitted is
    never evaluated, and a change before the cutoff is never missed.
    (Samples at or after the cutoff may have changed since the fit.) *)
Theorem interpolated_value_from_fit (cs : list (call T_data)) t d :
  exists_ t (run cs tseries_new) = false ->
  fst (get t (run cs tseries_new)) = Ok d ->
  exists (m : StdMap.t T_data) (i0 : h_interpolator),
    interpolator (snd (get t (run cs tseries_new))) = fit_of m i0 /\
    before (lastInterpYear (run cs tseries_new)) m =
      before (lastInterpYear (run cs tseries_new))
             (mapdata (run cs tseries_new)) /\
    d = of_double (f (fit_of m i0) t).
Proof.
  pose proof (coherent_run cs tseries_new coherent_new) as C.
  set (s := run cs tseries_new) in *. intros X G.
  rewrite (get_miss_primary to_double of_double t s X) in *.
  destruct (ltb t (lastInterpYear s)) eqn:L; [|discriminate].
  destruct (Nat.ltb 1 (size s)) eqn:Sz; [|discriminate].
  destruct (beyond_end (mapdata s) t && negb (endinterp_allowed s)) eqn:B;
    [discriminate|].
  simpl in G. injection G as <-. simpl.
  unfold fitted. destruct (dirty s) eqn:D.
  - exists (mapdata s), (interpolator s). now repeat split.
  - destruct (C D) as [(m & i0 & E1 & E2) | [E1 E2]].
    + exists m, i0. rewrite E1. now repeat split.
    + exfalso. rewrite E2, andb_true_r in B.
      apply Nat.ltb_lt in Sz. unfold size in Sz.
      destruct (mapdata s) as [|[k0 d0] m] eqn:M; [simpl in Sz; lia|].
      unfold beyond_end in B.
      destruct (rbegin_cons (k0, d0) m) as (q & R).
      simpl StdMap.begin in B. rewrite R in B.
      apply orb_false_iff in B. destruct B as [B _]. simpl in B.
      apply ltb_ge in B. apply ltb_lt in L.
      unfold before in E1. simpl in E1.
      assert (Lk : ltb k0 (lastInterpYear s) = true)
        by (apply ltb_lt; lra).
      rewrite Lk in E1. discriminate.
Qed.

End CacheFacts.

(** * The R binding: [sendmessage] *)

Section SendMessageFacts.
Context `{HectorCore}.
Implicit Types (date value : NumericVector) (hcore : Core).

Lemma send_loop_length (msgstr capstr : string) date value (utype : unit_types)
    (n i : nat) hcore (valueout : list double) (unitsout : list string)
    (hcore' : Core) :
  send_loop msgstr capstr date value utype n i hcore =
    (inr (valueout, unitsout), hcore') ->
  List.length valueout = n /\ List.length unitsout = n.
Proof.
  revert i hcore valueout unitsout hcore'.
  induction n as [|n IHn]; intros i hcore vo uo hcore'; simpl.
  - intros [= <- <- _]. now split.
  - destruct (sendMessage msgstr capstr _ hcore) as [[e|rtn] h1];
      [discriminate|].
    destruct (send_loop msgstr capstr date value utype n (S i) h1)
      as [[e|[vo' uo']] h2] eqn:E; [discriminate|].
    intros [= <- <- _]. destruct (IHn _ _ _ _ _ E) as [E1 E2].
    simpl. now rewrite E1, E2.
Qed.

(** X14. When [sendmessage] returns a data frame, the value vector had the
    length of the date vector or length 1, and the frame has one row per
    date: the date column is the date vector as passed (NA included), the
    var column is the capability, and the value and units columns have one
    entry per date.  When the value vector has any other length, the call
    stops before a single message reaches the core. *)
Theorem sendmessage_shape (core : hcore_handle) (msgtype capability : string)
    date value (unit : string) :
  (forall df,
     fst (sendmessage core msgtype capability date value unit) = Return df ->
     (List.length value = List.length date \/ List.length value = 1%nat) /\
     df_date df = date /\ df_var df = capability /\
     List.length (df_value df) = List.length date /\
     List.length (df_units df) = List.length date) /\
  (forall hcore,
     getcore (coreidx core) = Some hcore ->
     List.length value <> List.length date -> List.length value <> 1%nat ->
     sendmessage core msgtype capability date value unit =
     (Stop "Value must have length 1 or same length as date.", Some hcore)).
Proof.
  unfold sendmessage, gethcore. split.
  - intros df. destruct (getcore (coreidx core)) as [hcore|]; [|discriminate].
    destruct (Nat.eqb (List.length value) (List.length date)) eqn:E1;
      destruct (Nat.eqb (List.length value) 1) eqn:E2; simpl;
      try discriminate;
      (destruct (send_loop _ _ _ _ _ _ _ _) as [[e|[vo uo]] h1] eqn:L;
       [discriminate|]);
      intros [= <-]; simpl;
      destruct (send_loop_length _ _ _ _ _ _ _ _ _ _ _ L) as [L1 L2];
      (split; [|now repeat split]).
    + left. now apply Nat.eqb_eq.
    + left. now apply Nat.eqb_eq.
    + right. now apply Nat.eqb_eq.
  - intros hcore G N1 N2. rewrite G.
    apply Nat.eqb_neq in N1, N2. now rewrite N1, N2.
Qed.

Lemma send_loop_ext (msgstr capstr : string) date value value'
    (utype : unit_types) (n i : nat) hcore :
  (forall j, (i <= j < i + n)%nat ->
             message_at date value' utype j = message_at date value utype j) ->
  send_loop msgstr capstr date value' utype n i hcore =
  send_loop msgstr capstr date value utype n i hcore.
Proof.
  revert i hcore. induction n as [|n IHn]; intros i hcore M; simpl; trivial.
  rewrite (M i) by lia.
  destruct (sendMessage msgstr capstr _ hcore) as [[e|rtn] h1]; trivial.
  rewrite (IHn (S i) h1); trivial.
  intros j Hj. apply M. lia.
Qed.

Lemma length_expand_value (N : nat) value :
  List.length (expand_value N value) =
  if Nat.eqb (List.length value) 1 then N else List.length value.
Proof.
  unfold expand_value. rewrite length_map.
  destruct (Nat.eqb (List.length value) 1); trivial. apply repeat_length.
Qed.

Lemma nth_expand (g : option double -> option double) (l : list (option double))
    (j : nat) :
  (j < List.length l)%nat -> nth j (map g l) None = g (nth j l None).
Proof.
  intro L. rewrite (nth_indep _ None (g None)) by now rewrite length_map.
  apply map_nth.
Qed.

Lemma message_at_expand date value (utype : unit_types) (j : nat) :
  List.length value = List.length date \/ List.length value = 1%nat ->
  (j < List.length date)%nat ->
  message_at date (expand_value (List.length date) value) utype j =
  message_at date value utype j.
Proof.
  intros Len Lj. unfold message_at. rewrite length_expand_value.
  f_equal. f_equal. unfold expand_value.
  destruct (Nat.eqb (List.length value) 1) eqn:E1.
  - (* a single value *)
    destruct (Nat.eqb (List.length date) 1) eqn:E2.
    + apply Nat.eqb_eq in E2. rewrite E2 in *.
      rewrite nth_expand by (rewrite repeat_length; lia).
      simpl. now destruct (nth 0 value None).
    + rewrite nth_expand by (rewrite repeat_length; lia).
      rewrite nth_repeat_lt by exact Lj.
      now destruct (nth 0 value None).
  - rewrite E1. apply Nat.eqb_neq in E1.
    destruct Len as [Len|Len]; [|contradiction].
    rewrite nth_expand by lia.
    now destruct (nth j value None).
Qed.

(** X15. A value vector of length 1 is recycled and [NA] counts as 0:
    [sendmessage] with a value vector behaves, result and effect on the core
    alike, exactly as with that vector written out in full, the single
    value repeated for every date and 0 in the place of every [NA]. *)
Theorem sendmessage_expand_value (core : hcore_handle)
    (msgtype capability : string) date value (unit : string) :
  sendmessage core msgtype capability date
              (expand_value (List.length date) value) unit =
  sendmessage core msgtype capability date value unit.
Proof.
  unfold sendmessage. destruct (gethcore core) as [hcore|msg]; trivial.
  rewrite length_expand_value.
  destruct (Nat.eqb (List.length value) 1) eqn:E2.
  - (* a single value: both calls pass the length test *)
    rewrite Nat.eqb_refl, andb_false_r. simpl.
    apply Nat.eqb_eq in E2.
    rewrite (send_loop_ext msgtype capability date value
               (expand_value (List.length date) value)); trivial.
    intros j Hj. apply message_at_expand; [now right|lia].
  - rewrite E2. simpl negb. rewrite !andb_true_r.
    destruct (Nat.eqb (List.length value) (List.length date)) eqn:E1;
      simpl; trivial.
    apply Nat.eqb_eq in E1.
    rewrite (send_loop_ext msgtype capability date value
               (expand_value (List.length date) value)); trivial.
    intros j Hj. apply message_at_expand; [now left|lia].
Qed.

End SendMessageFacts.

(** * Further runs on concrete series *)

(** X1 on the calls of scenario A. *)
Lemma exists_iff_set_witness :
  exists_ 2000 seriesA = true /\
  (exists t' d, In (Set_ t' d) callsA /\ 2000 == t').
Proof.
  split; [reflexivity|].
  apply (exists_iff_set (H := Linear.engine) (IH := interp_helper_double)
           callsA 2000).
  reflexivity.
Defined.

(** X2: the sample of 2000 is still there after scenario A went on. *)
Lemma samples_never_removed_witness :
  exists_ 2000 (run (H := Linear.engine) (IH := interp_helper_double)
                    [Set_ 2020 30; Get 1995; AllowInterp true] seriesA) = true.
Proof.
  apply (samples_never_removed (H := Linear.engine)
           (IH := interp_helper_double)
           [Set_ 2020 30; Get 1995; AllowInterp true] seriesA 2000).
  reflexivity.
Defined.

(** X3: overwriting 2000 keeps three samples, adding 2005 makes four. *)
Lemma size_set_witness :
  size (set 2000 25 seriesA) = 3%nat /\ size (set 2005 25 seriesA) = 4%nat.
Proof.
  split.
  - refine (size_set (H := Linear.engine) seriesA 2000 25 _).
    repeat constructor.
  - refine (size_set (H := Linear.engine) seriesA 2005 25 _).
    repeat constructor.
Defined.

(** X4 on scenario A. *)
Lemma first_last_bounds_witness :
  exists_ 1990 seriesA = true /\ exists_ 2010 seriesA = true /\
  forall t, exists_ t seriesA = true -> 1990 <= t <= 2010.
Proof.
  apply (first_last_bounds (H := Linear.engine) seriesA 1990 2010);
    [repeat constructor|reflexivity|reflexivity].
Defined.

(** X5: a sample at 1980 becomes the first, the last stays. *)
Lemma first_last_set_witness :
  first (set 1980 5 seriesA) = Ok 1980 /\ last (set 1980 5 seriesA) = Ok 2010.
Proof.
  apply (first_last_set (H := Linear.engine) seriesA 1980 5).
  repeat constructor.
Defined.

(** X6: three reads on the dirty scenario A, two of them refused. *)
Lemma gets_change_no_sample_witness :
  size (run (H := Linear.engine) (IH := interp_helper_double)
            [Get 1995; Get 1980; Get 2020] seriesA) = size seriesA.
Proof.
  apply (gets_change_no_sample (H := Linear.engine)
           (IH := interp_helper_double) [Get 1995; Get 1980; Get 2020] seriesA).
  reflexivity.
Defined.

(** X7 on the empty series. *)
Lemma allowPartialInterp_empty_witness :
  fst (allowPartialInterp true (run_double [])) = Throw EmptySeries /\
  snd (allowPartialInterp true (run_double [])) = run_double [].
Proof.
  destruct (allowPartialInterp_empty (H := Linear.engine) true (run_double []))
    as [E S].
  split; [apply E; reflexivity|apply S; reflexivity].
Defined.

(** X8 on scenario A. *)
Lemma get_inside_range_witness :
  fst (get_double 1995 seriesA) = Ok 15.
Proof.
  refine (f_equal fst
            (get_inside_range (H := Linear.engine) (fun d => d) (fun d => d)
               seriesA 1995 1990 2010 _ _ _ _ _)).
  - reflexivity.
  - reflexivity.
  - reflexivity.
  - reflexivity.
  - split; vm_compute; discriminate.
Defined.

(** X9: with extrapolation allowed, also 2500 is answered. *)
Lemma allowInterp_total_witness :
  is_ok (fst (get_double 2500
                (run (H := Linear.engine) (IH := interp_helper_double)
                     [Set_ 2020 30; Get 2015]
                     (allowInterp true (run_double fillA))))) = true.
Proof.
  apply (allowInterp_total (H := Linear.engine) (fun d => d) (fun d => d)
           (run_double fillA) [Set_ 2020 30; Get 2015] 2500).
  - vm_compute; lia.
  - reflexivity.
  - reflexivity.
Defined.

(** X10: scenario A extended to 2020 still answers between 1990 and 2010. *)
Lemma allowPartialInterp_low_end_witness :
  is_ok (fst (get_double 1995
                (run (H := Linear.engine) (IH := interp_helper_double)
                     [Set_ 2020 30]
                     (snd (allowPartialInterp false (run_double fillA))))))
  = true.
Proof.
  apply (allowPartialInterp_low_end (H := Linear.engine)
           (fun d => d) (fun d => d)
           (run_double fillA) false 2010 [Set_ 2020 30] 1995 1990).
  - repeat constructor.
  - reflexivity.
  - reflexivity.
  - reflexivity.
  - vm_compute; discriminate.
  - reflexivity.
Defined.

(** X11: reads on the fitted scenario A change nothing. *)
Lemma clean_gets_pure_witness :
  run (H := Linear.engine) (IH := interp_helper_double)
      [Get 1995; Get 1980; Get 2020] seriesA_fitted = seriesA_fitted.
Proof.
  apply (clean_gets_pure (H := Linear.engine) (fun d => d) (fun d => d)
           [Get 1995; Get 1980; Get 2020] seriesA_fitted); reflexivity.
Defined.

(** X12: a sample at 1985 put into the fitted scenario A is in the next fit. *)
Lemma set_before_cutoff_refits_witness :
  dirty (set 1985 5 seriesA_fitted) = true /\
  Linear.knots (interpolator (snd (get_double 1995 (set 1985 5 seriesA_fitted))))
  = [(1985, 5); (1990, 10); (2000, 20); (2010, 15)].
Proof.
  destruct (set_before_cutoff_refits (H := Linear.engine)
              (fun d => d) (fun d => d) seriesA_fitted 1985 5 1995)
    as (D & _ & R).
  - reflexivity.
  - split; [exact D|].
    destruct R as [R _]; [reflexivity|reflexivity|vm_compute; lia|].
    exact (f_equal Linear.knots R).
Defined.

(** X13 on scenario A. *)
Lemma interpolated_value_from_fit_witness :
  exists (m : StdMap.t double) (i0 : Linear.state),
    interpolator (snd (get_double 1995 seriesA)) =
      fit_of (H := Linear.engine) (fun d => d) m i0 /\
    before 2010 m = before 2010 samplesA /\
    15 = f (Interpolator := Linear.engine)
           (fit_of (H := Linear.engine) (fun d => d) m i0) 1995.
Proof.
  apply (interpolated_value_from_fit (H := Linear.engine)
           (fun d => d) (fun d => d) callsA 1995 15); reflexivity.
Defined.

(** The default policy on the samples of scenario A (scenario B of the
    design notes): 1995 is refused. *)
Lemma default_policy_refuses_witness :
  get_double 1995 (run_double fillA) =
  (Throw InterpolationNotPermitted, run_double fillA).
Proof.
  apply (default_policy_refuses (H := Linear.engine)
           (IH := interp_helper_double) fillA 1995).
  - reflexivity.
  - reflexivity.
  - vm_compute; discriminate.
Defined.

(** The specialisation against the primary template on [seriesU]. *)
Lemma interp_unitval_as_primary_witness :
  interp_unitval (H := Linear.engine) (mapdata seriesU) (interpolator seriesU)
                 "?" true false 1999 =
  interp_primary (H := Linear.engine) val (fun y => mk_unitval y 3%nat)
                 (mapdata seriesU) (interpolator seriesU) "?" true false 1999.
Proof.
  apply (interp_unitval_as_primary (H := Linear.engine) (mapdata seriesU)
           (1990, mk_unitval 10 3%nat)).
  reflexivity.
Defined.

(** X14: two dates and one value sent to the echoing core. *)
Lemma sendmessage_shape_witness :
  let df := mk_DataFrame [Some 2000; Some 2010] "CO2" [380; 380]
                         ["ppmv"; "ppmv"]%string in
  fst (sendmessage (H := EchoCore.core) EchoCore.handle0
         "GETDATA" "CO2" [Some 2000; Some 2010] [Some 380] "ppmv") = Return df /\
  List.length (df_value df) = 2%nat /\ List.length (df_units df) = 2%nat.
Proof.
  intro df. split; [reflexivity|].
  destruct (sendmessage_shape (H := EchoCore.core) EchoCore.handle0
              "GETDATA" "CO2" [Some 2000; Some 2010] [Some 380] "ppmv")
    as [S _].
  destruct (S df eq_refl) as (_ & _ & _ & L1 & L2).
  split; [exact L1|exact L2].
Defined.

(** * The fit of a series of quantities *)

Section UnitvalMore.
Context `{Interpolator}.
Implicit Types (s : tseries unitval) (t : double).

(** X18. On a dirty series of quantities, a [get] that reaches the helper
    past its size assertion hands the engine every stored time with the
    magnitude of its sample, each read in the sample's own unit: the units
    are neither compared nor converted. *)
Theorem unitval_fit_uses_magnitudes s t :
  dirty s = true -> exists_ t s = false -> t < lastInterpYear s ->
  (1 < size s)%nat ->
  interpolator (snd (get t s)) =
    newdata (size s) (map fst (mapdata s))
            (map (fun p => val (snd p)) (mapdata s)) (interpolator s) /\
  dirty (snd (get t s)) = false.
Proof.
  intros D X L Sz. unfold exists_ in X. unfold get.
  destruct (StdMap.find t (mapdata s)); [discriminate|].
  apply ltb_lt in L. rewrite L. simpl. unfold interp_unitval.
  apply Nat.ltb_lt in Sz. unfold size in *. rewrite Sz, D, fill_y_total.
  simpl.
  destruct (beyond_end (mapdata s) t && negb (endinterp_allowed s));
    [now split|].
  destruct (StdMap.begin (mapdata s)); now split.
Qed.

End UnitvalMore.

(** X18 on [seriesU], whose two samples carry different units. *)
Lemma unitval_fit_uses_magnitudes_witness :
  Linear.knots (interpolator (snd (get (H := Linear.engine) 1999 seriesU))) =
  [(1990, 10); (2000, 20)].
Proof.
  destruct (unitval_fit_uses_magnitudes (H := Linear.engine) seriesU 1999)
    as [E _].
  - reflexivity.
  - reflexivity.
  - reflexivity.
  - vm_compute; lia.
  - exact (f_equal Linear.knots E).
Defined.
